(** * ThingModel: the live-state cache of one web thing

    A shallow embedding of [static/js/models/thing-model.js] and proofs of
    the properties its specification states.

    Conventions of the embedding.
    - JavaScript objects received from outside (status payloads, event
      payloads, the schemas of the thing description) are association
      lists in [for ... in] enumeration order; a property read [o[k]] is
      [JS.get o k].  The mutable [properties] cache and the objects handed
      to subscribers are finite maps over their own properties.
    - Every method is a function from the model state to the new state and
      the list of effects it performs (requests, stream operations, handler
      calls, console output), in program order.
    - A method that returns a promise is split in two: the synchronous part,
      which issues the request, and the reaction that runs when the request
      settles, named [<method>_settled].
    - Payloads are typed as the protocol prescribes: a status or event
      payload is an object, the events collection is an array of objects.
      Schemas do not declare properties called [__proto__] or
      [hasOwnProperty]; handlers observe and do not call back into the
      model.
    - [new WebSocket] is taken to accept the address it is given, so the
      only failures of construction that the embedding knows are those of
      [new URL]; of a batch of reads that fails, the console shows the
      error of the first failed read in request order. *)

From Stdlib Require Import Floats.PrimFloat Strings.Ascii.
From stdpp Require Import gmap strings list pretty.

#[local] Set Warnings "-clear-no-such-hyp".

(** ** JavaScript values and objects *)

Module JS.

#[warnings="-register-all"]
Inductive value :=
| VUndefined
| VNull
| VBool (b : bool)
| VNum (n : float)
| VStr (s : string)
| VArr (l : list value)
| VObj (o : list (string * value)).

(** An object as the list of its own enumerable properties. *)
Abbreviation obj A := (list (string * A)).
Abbreviation jsobj := (list (string * value)).

(** [for (const k in o)] *)
Definition own_keys {A} (o : obj A) : list string := o.*1.

(** [o.hasOwnProperty(k)] *)
Definition hasOwnProperty {A} (o : obj A) (k : string) : bool :=
  bool_decide (k ∈ own_keys o).

Fixpoint lookup_own {A} (o : obj A) (k : string) : option A :=
  match o with
  | [] => None
  | (k', v) :: o' => if String.eqb k' k then Some v else lookup_own o' k
  end.

(** [o[k]] *)
Definition get (o : jsobj) (k : string) : value :=
  default VUndefined (lookup_own o k).

(** [o[k] = v] on an object kept as a list: in place when [k] is an own
    property, at the end otherwise. *)
Fixpoint set {A} (k : string) (v : A) (o : obj A) : obj A :=
  match o with
  | [] => [(k, v)]
  | (k', v') :: o' =>
      if String.eqb k' k then (k, v) :: o' else (k', v') :: set k v o'
  end.

(** [Object.assign(target, source)] *)
Definition assign (target source : jsobj) : jsobj :=
  foldl (λ t k, set k (get source k) t) target (own_keys source).

(** [typeof value === 'undefined' || value === null] *)
Definition is_nullish (v : value) : bool :=
  match v with
  | VUndefined | VNull => true
  | _ => false
  end.

(** [Boolean(value)] *)
Definition Boolean (v : value) : bool :=
  match v with
  | VUndefined | VNull => false
  | VBool b => b
  | VNum n => negb (is_zero n || is_nan n)
  | VStr s => negb (String.eqb s "")
  | VArr _ | VObj _ => true
  end.

(** [new URL(...)] objects, as far as the model reads them. *)
Record URL := { url_href : string; pathname : string }.

(** [hay] contains [needle]. *)
Definition contains (needle hay : string) : Prop :=
  ∃ pre suf, hay = pre +:+ needle +:+ suf.

End JS.

Import JS.

(** ** Collaborators outside the model *)

(** What the model takes from the runtime and from the modules [../api] and
    [../app]: the origin, the credential, the default request headers, and
    the built-ins [new URL] ([None] when it throws), [parseFloat],
    [parseInt] and [JSON.stringify]. *)
Record Platform := {
  ORIGIN : string;
  jwt : string;
  headers : obj string;
  new_URL : string → string → option URL;
  parseFloat : value → float;
  parseInt : value → float;
  JSON_stringify : value → string;
}.

Record request := {
  target : option string;
  method : string;
  req_headers : obj string;
  body : option string;
}.

(** A subscriber callback, known by its identity. *)
Definition handler := nat.

Inductive effect :=
| Fetch (r : request)
| WebSocketNew (url : string)
| WebSocketSend (msg : string)
| WebSocketClose
| Call (h : handler) (state : gmap string value)
| Console (level msg : string).

(** How a request settles: with a response, whose body [json] is [None]
    when it does not parse, or with a transport error. *)
Record response (B : Type) := {
  ok : bool;
  status : nat;
  statusText : string;
  json : option B;
}.
Arguments ok {B} _.
Arguments status {B} _.
Arguments statusText {B} _.
Arguments json {B} _.

Inductive outcome (B : Type) :=
| Response (r : response B)
| NetworkError (error : string).
Arguments Response {B} _.
Arguments NetworkError {B} _.

(** The result a promise settles with. *)
Inductive settled :=
| Resolved
| Rejected (reason : string).

(** ** Event kinds *)

Module Constants.

(** Modelled from the spec: the module [../constants] is not among the
    sources.  The specification names two event kinds, PROPERTY_STATUS and
    EVENT_OCCURRED; any other name a caller passes is [Unknown]. *)
Inductive event :=
| EVENT_OCCURRED
| PROPERTY_STATUS
| Unknown (name : string).

#[export] Instance event_eq_dec : EqDecision event.
Proof. solve_decision. Defined.

End Constants.

Import Constants.

(** ** The event emitter *)

Module Model.

(** Modelled from the spec: the base class [./model] is not among the
    sources.  The registry is a set of (event kind, handler) pairs kept in
    registration order. *)
Definition registry := list (event * handler).

(** Modelled from the spec: the constructor of the base class starts with
    no registration. *)
Definition constructor : registry := [].

(** Modelled from the spec: [subscribe(eventKind, handler)] registers the
    handler for the kind; no kind is refused. *)
Definition subscribe (e : event) (h : handler) (reg : registry) : registry :=
  if bool_decide ((e, h) ∈ reg) then reg else reg ++ [(e, h)].

(** The handlers registered for [e], in registration order. *)
Definition subscribers (e : event) (reg : registry) : list handler :=
  (filter (λ eh, eh.1 = e) reg).*2.

(** Modelled from the spec: [handleEvent(eventKind, payload)] invokes every
    handler registered for the kind, synchronously, in registration order. *)
Definition handleEvent (e : event) (payload : gmap string value)
    (reg : registry) : list effect :=
  (λ h, Call h payload) <$> subscribers e reg.

(** Modelled from the spec: [cleanup()] clears all registrations. *)
Definition cleanup (reg : registry) : registry := [].

End Model.

(** ** The model *)

Module ThingModel.

Record descriptor := { type : value; href : option string }.

Record link := { rel : string; link_href : string }.

Record description := {
  d_name : string;
  d_type : string;
  d_href : option string;
  d_links : list link;
  d_properties : option (obj descriptor);
  d_events : option jsobj;
}.

(** The stream: its address, whether the one-shot [open] listener is still
    armed, whether the [message]/[close]/[error] listeners are attached,
    and whether [close()] was called. *)
Record WebSocket := {
  ws_url : string;
  open_armed : bool;
  listening : bool;
  closed : bool;
}.

Record t := {
  name : string;
  thing_type : string;
  properties : gmap string value;
  events : list jsobj;
  thing_href : option URL;
  id : option string;
  eventsHref : option URL;
  propertyDescriptions : obj descriptor;
  eventDescriptions : jsobj;
  ws : option WebSocket;
  handlers : Model.registry;
}.

Definition set_properties (p : gmap string value) (m : t) : t :=
  {| name := name m; thing_type := thing_type m; properties := p;
     events := events m; thing_href := thing_href m; id := id m;
     eventsHref := eventsHref m;
     propertyDescriptions := propertyDescriptions m;
     eventDescriptions := eventDescriptions m; ws := ws m;
     handlers := handlers m |}.

Definition set_events (l : list jsobj) (m : t) : t :=
  {| name := name m; thing_type := thing_type m; properties := properties m;
     events := l; thing_href := thing_href m; id := id m;
     eventsHref := eventsHref m;
     propertyDescriptions := propertyDescriptions m;
     eventDescriptions := eventDescriptions m; ws := ws m;
     handlers := handlers m |}.

Definition set_ws (w : option WebSocket) (m : t) : t :=
  {| name := name m; thing_type := thing_type m; properties := properties m;
     events := events m; thing_href := thing_href m; id := id m;
     eventsHref := eventsHref m;
     propertyDescriptions := propertyDescriptions m;
     eventDescriptions := eventDescriptions m; ws := w;
     handlers := handlers m |}.

Definition set_handlers (r : Model.registry) (m : t) : t :=
  {| name := name m; thing_type := thing_type m; properties := properties m;
     events := events m; thing_href := thing_href m; id := id m;
     eventsHref := eventsHref m;
     propertyDescriptions := propertyDescriptions m;
     eventDescriptions := eventDescriptions m; ws := ws m;
     handlers := r |}.

(** [this.handleEvent(e, payload)] *)
Definition handleEvent (e : event) (payload : gmap string value) (m : t)
    : list effect :=
  Model.handleEvent e payload (handlers m).

(** *** Reconciliation of property values *)

(** One turn of the loop of [onPropertyStatus]. *)
Definition onPropertyStatus_body (descs : obj descriptor) (data : jsobj)
    (props : gmap string value) (prop : string) : gmap string value :=
  if negb (hasOwnProperty descs prop) then props
  else
    let value := get data prop in
    if is_nullish value then props
    else <[prop := value]> props.

Definition onPropertyStatus (data : jsobj) (m : t) : t * list effect :=
  let props :=
    foldl (onPropertyStatus_body (propertyDescriptions m) data)
          (properties m) (own_keys data) in
  let m' := set_properties props m in
  (m', handleEvent PROPERTY_STATUS (properties m') m').

(** *** Events *)

(** One turn of the loop of [onEvent]: the delta object and the log. *)
Definition onEvent_body (descs data : jsobj)
    (acc : gmap string value * list jsobj) (event : string)
    : gmap string value * list jsobj :=
  if negb (hasOwnProperty descs event) then acc
  else (<[event := get data event]> acc.1,
        acc.2 ++ [[(event, get data event)]]).

Definition onEvent (data : jsobj) (m : t) : t * list effect :=
  let acc :=
    foldl (onEvent_body (eventDescriptions m) data) (∅, events m)
          (own_keys data) in
  let m' := set_events acc.2 m in
  (m', handleEvent EVENT_OCCURRED acc.1 m').

(** *** Subscription and teardown *)

Definition subscribe (e : event) (h : handler) (m : t) : t * list effect :=
  let m' := set_handlers (Model.subscribe e h (handlers m)) m in
  match e with
  | EVENT_OCCURRED => (m', [])
  | PROPERTY_STATUS => (m', [Call h (properties m')])
  | Unknown name =>
      (m', [Console "warn" ("ThingModel does not support event:" +:+ name)])
  end.

(** A call either returns or throws. *)
Inductive completion (A : Type) :=
| Return (a : A)
| Throw (error : string).
Arguments Return {A} _.
Arguments Throw {A} _.

(** [this.ws.close()] *)
Definition close (w : WebSocket) : WebSocket :=
  {| ws_url := ws_url w; open_armed := open_armed w;
     listening := listening w; closed := true |}.

(** [cleanup()]: reading [close] of an absent stream throws before the
    registrations are cleared. *)
Definition cleanup (m : t) : completion (t * list effect) :=
  match ws m with
  | None => Throw "TypeError: this.ws is undefined"
  | Some w =>
      Return (set_handlers (Model.cleanup (handlers m))
                (set_ws (Some (close w)) m),
              [WebSocketClose])
  end.

(** What a method returns: a promise still waiting for its request, or one
    already settled. *)
Inductive promise :=
| Pending
| Settled (s : settled).

Section WithPlatform.

Context (P : Platform).

Definition bearer : string * string :=
  ("Authorization", "Bearer " +:+ jwt P).

(** *** Writing a property *)

(** The [switch] on the declared type in [setProperty]. *)
Definition coerce (declared value : value) : JS.value :=
  match declared with
  | VStr s =>
      if String.eqb s "number" then VNum (parseFloat P value)
      else if String.eqb s "integer" then VNum (parseInt P value)
      else if String.eqb s "boolean" then VBool (Boolean value)
      else value
  | _ => value
  end.

Definition setProperty_request (property : descriptor) (payload : value)
    : request :=
  {| target := href property;
     method := "PUT";
     req_headers := set "Content-Type" "application/json" (headers P);
     body := Some (JSON_stringify P payload) |}.

(** [setProperty(name, value)] up to the request; the guard
    [!this.propertyDescriptions.hasOwnProperty(name)] is the [None] case
    of the read [this.propertyDescriptions[name]]. *)
Definition setProperty (name : string) (value : value) (m : t)
    : list effect * promise :=
  match lookup_own (propertyDescriptions m) name with
  | None => ([], Settled (Rejected ("Unavailable property name " +:+ name)))
  | Some property =>
      let value := coerce (type property) value in
      let payload := VObj [(name, value)] in
      ([Fetch (setProperty_request property payload)], Pending)
  end.

Definition setProperty_settled (name : string) (o : outcome jsobj) (m : t)
    : t * list effect * settled :=
  let failed := Rejected ("Error trying to set " +:+ name) in
  match o with
  | Response r =>
      if ok r then
        match json r with
        | Some data =>
            let (m', trace) := onPropertyStatus data m in
            (m', trace, Resolved)
        | None => (m, [Console "error" "SyntaxError"], failed)
        end
      else
        (m, [Console "error" ("Status " +:+ pretty (status r)
                              +:+ " trying to set " +:+ name)], failed)
  | NetworkError error => (m, [Console "error" error], failed)
  end.

(** *** Reading all properties *)

Definition get_request (url : option string) : request :=
  {| target := url;
     method := "GET";
     req_headers := [bearer; ("Accept", "application/json")];
     body := None |}.

Definition updateProperties (m : t) : list effect :=
  let urls := (λ v, href v.2) <$> propertyDescriptions m in
  (λ u, Fetch (get_request u)) <$> urls.

(** The parsed body of a settled read, or the error that fails it. *)
Definition parsed {B} (o : outcome B) : string + B :=
  match o with
  | Response r =>
      match json r with
      | Some b => inr b
      | None => inl "SyntaxError"
      end
  | NetworkError error => inl error
  end.

(** [Promise.all]: every body, or the error of the first read that
    failed. *)
Fixpoint all {B} (os : list (outcome B)) : string + list B :=
  match os with
  | [] => inr []
  | o :: os' =>
      match parsed o, all os' with
      | inl error, _ => inl error
      | inr _, inl error => inl error
      | inr b, inr bs => inr (b :: bs)
      end
  end.

Definition updateProperties_settled (os : list (outcome jsobj)) (m : t)
    : t * list effect :=
  match all os with
  | inr responses => onPropertyStatus (foldl assign [] responses) m
  | inl error =>
      (m, [Console "error" ("Error fetching " +:+ name m +:+ " status: "
                            +:+ error)])
  end.

(** *** Reading the events collection *)

Definition updateEvents (m : t) : list effect :=
  match eventsHref m with
  | None => []
  | Some u => [Fetch (get_request (Some (url_href u)))]
  end.

Definition updateEvents_settled (o : outcome (list jsobj)) (m : t)
    : t * list effect :=
  match parsed o with
  | inr events => (set_events events m, [])
  | inl e => (m, [Console "error" ("Error fetching events: " +:+ e)])
  end.

(** *** Removing and updating the thing *)

Definition thing_request (verb : string) (content : option string) (m : t)
    : request :=
  {| target := url_href <$> thing_href m;
     method := verb;
     req_headers := [bearer; ("Accept", "application/json");
                     ("Content-Type", "application/json")];
     body := content |}.

Definition removeThing (m : t) : list effect * promise :=
  ([Fetch (thing_request "DELETE" None m)], Pending).

Definition removeThing_settled (o : outcome unit) (m : t)
    : t * list effect * settled :=
  let failed := Rejected "Error occurred while removing thing" in
  match o with
  | Response r =>
      if ok r then
        let log := Console "log" "Successfully removed Thing." in
        match cleanup m with
        | Return (m', trace) => (m', log :: trace, Resolved)
        | Throw error => (m, [log; Console "error" error], failed)
        end
      else (m, [], Rejected ("Failed removing thing " +:+ statusText r))
  | NetworkError error => (m, [Console "error" error], failed)
  end.

Definition updateThing (updates : value) (m : t) : list effect * promise :=
  ([Fetch (thing_request "PUT" (Some (JSON_stringify P updates)) m)],
   Pending).

Definition updateThing_settled (o : outcome unit) (m : t)
    : t * list effect * settled :=
  match o with
  | Response r =>
      if ok r then (m, [Console "log" "Successfully updated Thing."], Resolved)
      else (m, [], Rejected ("Failed updating thing " +:+ statusText r))
  | NetworkError error =>
      (m, [Console "error" error],
       Rejected "Error occurred while updating thing")
  end.

(** *** The stream *)

(** [href.replace(/^http/, 'ws')] *)
Definition replace_http (href : string) : string :=
  if String.prefix "http" href
  then "ws" +:+ String.substring 4 (String.length href - 4) href
  else href.

Definition initWebsocket (m : t) : t * list effect :=
  match thing_href m with
  | None => (m, [])
  | Some u =>
      let wsHref := replace_http (url_href u) in
      let url := wsHref +:+ "?jwt=" +:+ jwt P in
      (set_ws (Some {| ws_url := url; open_armed := true;
                       listening := true; closed := false |}) m,
       [WebSocketNew url])
  end.

Record message := { messageType : string; data : jsobj }.

(** The [open] listener: one subscription request naming every event. *)
Definition ws_onopen (m : t) : list effect :=
  if bool_decide (length (own_keys (eventDescriptions m)) = 0) then []
  else
    let data :=
      foldl (λ d name, set name (VObj []) d) []
            (own_keys (eventDescriptions m)) in
    let msg := VObj [("messageType", VStr "addEventSubscription");
                     ("data", VObj data)] in
    [WebSocketSend (JSON_stringify P msg)].

(** The [message] listener (the closure [onEvent] of [initWebsocket]). *)
Definition ws_onmessage (msg : message) (m : t) : t * list effect :=
  if String.eqb (messageType msg) "propertyStatus"
  then onPropertyStatus (data msg) m
  else if String.eqb (messageType msg) "event"
  then onEvent (data msg) m
  else (m, []).

(** The [close] and [error] listener (the closure [cleanup] of
    [initWebsocket]). *)
Definition ws_cleanup (w : WebSocket) : WebSocket :=
  {| ws_url := ws_url w; open_armed := open_armed w;
     listening := false; closed := closed w |}.

Definition disarm (w : WebSocket) : WebSocket :=
  {| ws_url := ws_url w; open_armed := false;
     listening := listening w; closed := closed w |}.

(** *** Construction *)

(** [pathname.split('/').pop()] *)
Fixpoint last_segment (s current : string) : string :=
  match s with
  | EmptyString => current
  | String c s' =>
      if Ascii.eqb c "/"%char then last_segment s' ""
      else last_segment s' (current +:+ String c "")
  end.

(** An optional address of the description, resolved against the origin;
    the outer [None] is [new URL] throwing. *)
Definition resolve (address : option string) : option (option URL) :=
  match address with
  | None => Some None
  | Some h => Some <$> new_URL P h (ORIGIN P)
  end.

Definition constructor (desc : description) : option (t * list effect) :=
  href ← resolve (if d_href desc is Some "" then None else d_href desc);
  eventsHref ←
    resolve (link_href <$>
               head (filter (λ l, rel l = "events") (d_links desc)));
  let m := {|
    name := d_name desc;
    thing_type := d_type desc;
    properties := ∅;
    events := [];
    thing_href := href;
    id := (λ u, last_segment (pathname u) "") <$> href;
    eventsHref := eventsHref;
    propertyDescriptions := default [] (d_properties desc);
    eventDescriptions := default [] (d_events desc);
    ws := None;
    handlers := Model.constructor |} in
  let (m', opened) := initWebsocket m in
  Some (m', opened ++ updateEvents m' ++ updateProperties m').

(** *** Everything that can happen to a model *)

(** Calls of the public methods, requests settling (a reaction runs only
    if its request was issued), and the stream firing its listeners. *)
Inductive action :=
| Subscribe (e : event) (h : handler)
| SetProperty (name : string) (v : value)
| SetPropertySettled (name : string) (o : outcome jsobj)
| UpdateProperties
| UpdatePropertiesSettled (os : list (outcome jsobj))
| UpdateEvents
| UpdateEventsSettled (o : outcome (list jsobj))
| RemoveThing
| RemoveThingSettled (o : outcome unit)
| UpdateThing (updates : value)
| UpdateThingSettled (o : outcome unit)
| Cleanup
| StreamOpen
| StreamMessage (msg : message)
| StreamCloseOrError.

Definition run (a : action) (m : t) : t * list effect :=
  match a with
  | Subscribe e h => subscribe e h m
  | SetProperty name v => (m, (setProperty name v m).1)
  | SetPropertySettled name o =>
      if hasOwnProperty (propertyDescriptions m) name
      then (setProperty_settled name o m).1
      else (m, [])
  | UpdateProperties => (m, updateProperties m)
  | UpdatePropertiesSettled os => updateProperties_settled os m
  | UpdateEvents => (m, updateEvents m)
  | UpdateEventsSettled o =>
      if eventsHref m is Some _ then updateEvents_settled o m else (m, [])
  | RemoveThing => (m, (removeThing m).1)
  | RemoveThingSettled o => (removeThing_settled o m).1
  | UpdateThing updates => (m, (updateThing updates m).1)
  | UpdateThingSettled o => (updateThing_settled o m).1
  | Cleanup =>
      match cleanup m with
      | Return r => r
      | Throw _ => (m, [])
      end
  | StreamOpen =>
      match ws m with
      | Some w =>
          if open_armed w
          then (set_ws (Some (disarm w)) m, ws_onopen m)
          else (m, [])
      | None => (m, [])
      end
  | StreamMessage msg =>
      match ws m with
      | Some w => if listening w then ws_onmessage msg m else (m, [])
      | None => (m, [])
      end
  | StreamCloseOrError =>
      match ws m with
      | Some w => (set_ws (Some (ws_cleanup w)) m, [])
      | None => (m, [])
      end
  end.

(** The model and the effects after a sequence of actions. *)
Fixpoint runs (acts : list action) (m : t) : t * list effect :=
  match acts with
  | [] => (m, [])
  | a :: acts' =>
      let (m', trace) := run a m in
      let (m'', trace') := runs acts' m' in
      (m'', trace ++ trace')
  end.

End WithPlatform.

End ThingModel.

(** ** A test double and two things *)

Module Sample.

Import ThingModel.

(** A stand-in for the browser: addresses are resolved by prefixing the
    origin, the two numeric parsers know the literals the scenarios use,
    and the serialiser only renders the outer shape. *)
Definition numeral (v : value) : float :=
  match v with
  | VNum n => n
  | VStr s =>
      if String.eqb s "3.5" then 3.5%float
      else if String.eqb s "42" then 42%float
      else nan
  | _ => nan
  end.

Definition integral (v : value) : float :=
  match v with
  | VStr s =>
      if String.eqb s "3.5" then 3%float
      else if String.eqb s "42" then 42%float
      else nan
  | _ => nan
  end.

Definition render (v : value) : string :=
  match v with
  | VObj o => "{" +:+ String.concat "," (own_keys o) +:+ "}"
  | VArr _ => "[]"
  | VStr s => s
  | _ => "null"
  end.

Definition browser : Platform := {|
  ORIGIN := "https://gateway.local";
  jwt := "secret";
  headers := [("Authorization", "Bearer secret");
              ("Accept", "application/json")];
  new_URL := λ address base,
    Some {| url_href := base +:+ address; pathname := address |};
  parseFloat := numeral;
  parseInt := integral;
  JSON_stringify := render;
|}.

(** A dimmable lamp with two properties and one event. *)
Definition lamp : description := {|
  d_name := "Lamp";
  d_type := "dimmableLight";
  d_href := Some "/things/lamp";
  d_links := [ {| rel := "properties";
                  link_href := "/things/lamp/properties" |};
               {| rel := "events"; link_href := "/things/lamp/events" |} ];
  d_properties := Some [
    ("on", {| type := VStr "boolean";
              href := Some "/things/lamp/properties/on" |});
    ("level", {| type := VStr "number";
                 href := Some "/things/lamp/properties/level" |}) ];
  d_events := Some [("overheated", VObj [])];
|}.

(** A description without a resource address. *)
Definition orphan : description := {|
  d_name := "Orphan";
  d_type := "thing";
  d_href := None;
  d_links := [ {| rel := "events"; link_href := "/things/orphan/events" |} ];
  d_properties := None;
  d_events := None;
|}.

(** The models the constructor builds from them. *)
Definition built (desc : description) : option t :=
  fst <$> constructor browser desc.

Definition blank : t := {|
  name := ""; thing_type := ""; properties := ∅; events := [];
  thing_href := None; id := None; eventsHref := None;
  propertyDescriptions := []; eventDescriptions := []; ws := None;
  handlers := [] |}.

Definition lamp_model : t := Eval vm_compute in default blank (built lamp).

Definition orphan_model : t :=
  Eval vm_compute in default blank (built orphan).

(** The effects of constructing the lamp. *)
Definition lamp_trace : list effect :=
  Eval vm_compute in default [] (snd <$> constructor browser lamp).

(** The effects of constructing the orphan. *)
Definition orphan_trace : list effect :=
  Eval vm_compute in default [] (snd <$> constructor browser orphan).

(** The lamp with one subscriber of each kind. *)
Definition watched_lamp : t :=
  set_handlers [(PROPERTY_STATUS, 7); (EVENT_OCCURRED, 8)] lamp_model.

(** A status payload with an undeclared name and a null value, and an
    event payload with an undeclared name. *)
Definition reading : jsobj :=
  [("level", VStr "42"); ("extra", VNum 1); ("on", VNull)].

Definition occurrence : jsobj :=
  [("overheated", VObj []); ("doorbell", VBool true)].

(** A stand-in that only resolves addresses that begin with [/], and a
    description whose address does not. *)
Definition strict : Platform := {|
  ORIGIN := ORIGIN browser;
  jwt := jwt browser;
  headers := headers browser;
  new_URL := λ address base,
    if String.prefix "/" address
    then Some {| url_href := base +:+ address; pathname := address |}
    else None;
  parseFloat := numeral;
  parseInt := integral;
  JSON_stringify := render;
|}.

Definition misaddressed : description := {|
  d_name := "Lamp";
  d_type := "dimmableLight";
  d_href := Some "http://[";
  d_links := [];
  d_properties := None;
  d_events := None;
|}.

Definition success {B} (content : B) : outcome B :=
  Response {| ok := true; status := 200; statusText := "OK";
              json := Some content |}.

End Sample.

Import ThingModel.

(** * The vocabulary of the statements *)

(** A key of a status payload that [onPropertyStatus] stores: declared by
    the schema, with a value that is neither undefined nor null. *)
Definition accepted (descs : obj descriptor) (data : jsobj) (key : string)
    : bool :=
  hasOwnProperty descs key && negb (is_nullish (get data key)).

(** [m'] has the schemas, the cache and the log of [m]. *)
Definition same_data (m m' : t) : Prop :=
  propertyDescriptions m' = propertyDescriptions m
  ∧ eventDescriptions m' = eventDescriptions m
  ∧ properties m' = properties m
  ∧ events m' = events m.

(** An action leaves the data of the model alone, or reconciles a status
    payload, or records an event payload, or replaces the log by the
    events collection a read returned. *)
Inductive data_change (m : t) (a : action) (m' : t) : Prop :=
| Unchanged : same_data m m' → data_change m a m'
| Reconciled data :
    m' = (onPropertyStatus data m).1 → data_change m a m'
| Recorded data :
    m' = (onEvent data m).1 → data_change m a m'
| Resynced o evs :
    a = UpdateEventsSettled o → parsed o = inr evs →
    m' = set_events evs m → data_change m a m'.

(** [properties] holds no key that the property schema does not declare. *)
Definition properties_within_schema (m : t) : Prop :=
  ∀ key, hasOwnProperty (propertyDescriptions m) key = false →
         properties m !! key = None.

(** Every key of every entry of [evs] is declared by [descs]. *)
Definition collection_within_schema (descs : jsobj) (evs : list jsobj)
    : Prop :=
  ∀ entry key, entry ∈ evs → key ∈ own_keys entry →
               hasOwnProperty descs key = true.

(** The same of the log of the model and its event schema. *)
Definition events_within_schema (m : t) : Prop :=
  collection_within_schema (eventDescriptions m) (events m).

(** The events collection a settled [updateEvents] carries is within the
    schema [descs]; any other action qualifies. *)
Definition resync_within_schema (descs : jsobj) (a : action) : Prop :=
  match a with
  | UpdateEventsSettled o =>
      match parsed o with
      | inr evs => collection_within_schema descs evs
      | inl _ => True
      end
  | _ => True
  end.

(** [hay.includes(needle)] *)
Fixpoint includes (needle hay : string) : bool :=
  String.prefix needle hay ||
  match hay with
  | EmptyString => false
  | String _ hay' => includes needle hay'
  end.

(** How many effects of a trace satisfy [p]. *)
Definition count (p : effect → bool) (trace : list effect) : nat :=
  length (filter (λ e, p e) trace).

(** Streams opened in a trace. *)
Definition opened : list effect → nat :=
  count (λ e, if e is WebSocketNew _ then true else false).

(** Calls of [close] in a trace. *)
Definition closings : list effect → nat :=
  count (λ e, if e is WebSocketClose then true else false).

(** The description carries a resource address ([description.href] is
    truthy). *)
Definition has_address (desc : description) : Prop :=
  ∃ h, d_href desc = Some h ∧ h ≠ "".

(** The actions that tear the model down: [cleanup()] itself and
    [removeThing] settling with a successful response. *)
Definition tears_down (a : action) : bool :=
  match a with
  | Cleanup => true
  | RemoveThingSettled (Response r) => ok r
  | _ => false
  end.

(** A trace that neither opens nor closes a stream. *)
Definition quiet (trace : list effect) : Prop :=
  opened trace = 0 ∧ closings trace = 0.

(** How many actions of a sequence tear the model down. *)
Definition teardowns (acts : list action) : nat :=
  length (filter (λ a, tears_down a) acts).

(** ** Further vocabulary *)

(** The value that the last of [responses] to have [key] gives it. *)
Definition last_of (responses : list jsobj) (key : string) : option value :=
  foldl (λ found r, if lookup_own r key is Some v then Some v else found)
        None responses.

(** A read that did not deliver a parsed body. *)
Definition failed {B} (o : outcome B) : Prop :=
  ∃ error, parsed o = inl error.

(** A write that was answered with success and a parsed body. *)
Definition answered (o : outcome jsobj) : Prop :=
  ∃ r data, o = Response r ∧ ok r = true ∧ json r = Some data.

(** Handler calls, subscription requests and requests in a trace. *)
Definition calls : list effect → nat :=
  count (λ e, if e is Call _ _ then true else false).

Definition sends : list effect → nat :=
  count (λ e, if e is WebSocketSend _ then true else false).

(** What construction fixes: name, type, addresses, identity, schemas. *)
Definition same_identity (m m' : t) : Prop :=
  name m' = name m
  ∧ thing_type m' = thing_type m
  ∧ thing_href m' = thing_href m
  ∧ id m' = id m
  ∧ eventsHref m' = eventsHref m
  ∧ propertyDescriptions m' = propertyDescriptions m
  ∧ eventDescriptions m' = eventDescriptions m.

(** The [message] listener is no longer attached. *)
Definition deaf (m : t) : Prop :=
  match ws m with
  | Some w => listening w = false
  | None => True
  end.

(** The one-shot [open] listener has not fired yet. *)
Definition armed (m : t) : bool :=
  match ws m with
  | Some w => open_armed w
  | None => false
  end.

(** A settled [updateEvents] that delivers a collection. *)
Definition resyncs (a : action) : Prop :=
  match a with
  | UpdateEventsSettled o => ∃ evs, parsed o = inr evs
  | _ => False
  end.

(** The string has a [/] in it. *)
Fixpoint has_slash (s : string) : bool :=
  match s with
  | EmptyString => false
  | String c s' => Ascii.eqb c "/"%char || has_slash s'
  end.

(** The first link of the description with relation [events]. *)
Definition events_link (desc : description) : option link :=
  head (filter (λ l, rel l = "events") (d_links desc)).

(** * Properties *)

(** ** Reconciliation *)

Section Reconciliation.

Variables (descs : obj descriptor) (data : jsobj).

Lemma onPropertyStatus_body_lookup (props : gmap string value)
    (prop key : string) :
  onPropertyStatus_body descs data props prop !! key =
    if bool_decide (key = prop) && accepted descs data key
    then Some (get data key) else props !! key.
Proof.
  unfold onPropertyStatus_body, accepted.
  case_bool_decide as Hk; simpl.
  - subst key. destruct (hasOwnProperty descs prop); simpl; [|done].
    destruct (is_nullish (get data prop)); simpl; [done|].
    by rewrite lookup_insert_eq.
  - destruct (hasOwnProperty descs prop); simpl; [|done].
    destruct (is_nullish (get data prop)); simpl; [done|].
    by rewrite lookup_insert_ne.
Qed.

Lemma onPropertyStatus_loop_lookup (keys : list string)
    (props : gmap string value) (key : string) :
  foldl (onPropertyStatus_body descs data) props keys !! key =
    if bool_decide (key ∈ keys) && accepted descs data key
    then Some (get data key) else props !! key.
Proof.
  revert props. induction keys as [|k keys IH]; intros props; simpl.
  - done.
  - rewrite IH, onPropertyStatus_body_lookup.
    destruct (accepted descs data key);
      rewrite ?andb_true_r, ?andb_false_r; [|done].
    repeat case_bool_decide; set_solver.
Qed.

End Reconciliation.

Lemma onPropertyStatus_properties (data : jsobj) (m : t) (key : string) :
  properties (onPropertyStatus data m).1 !! key =
    if bool_decide (key ∈ own_keys data)
       && hasOwnProperty (propertyDescriptions m) key
       && negb (is_nullish (get data key))
    then Some (get data key)
    else properties m !! key.
Proof.
  simpl. rewrite onPropertyStatus_loop_lookup. unfold accepted.
  by rewrite andb_assoc.
Qed.

(** C1: [onPropertyStatus] overwrites [properties[key]] with the incoming
    value for each key of the payload that the schema declares and whose
    value is neither undefined nor null, leaves every other entry as it
    was, changes nothing else in the model, and then hands the whole
    [properties] map to each PROPERTY_STATUS subscriber exactly once. *)
Theorem onPropertyStatus_folds_then_emits_whole_map (data : jsobj) (m : t) :
  let m' := (onPropertyStatus data m).1 in
  (∀ key,
     properties m' !! key =
       if bool_decide (key ∈ own_keys data)
          && hasOwnProperty (propertyDescriptions m) key
          && negb (is_nullish (get data key))
       then Some (get data key)
       else properties m !! key)
  ∧ m' = set_properties (properties m') m
  ∧ (onPropertyStatus data m).2 =
      (λ h, Call h (properties m')) <$>
        Model.subscribers PROPERTY_STATUS (handlers m).
Proof.
  split; [|done]. intros key. apply onPropertyStatus_properties.
Qed.

(** C7: each application of a status payload stores the accepted values
    and calls every PROPERTY_STATUS subscriber once with the whole
    [properties] map; applying the same payload a second time leaves the
    model, and so its [properties] map, as the first application left it,
    and the second notification carries the same content to the same
    subscribers as the first. *)
Theorem onPropertyStatus_idempotent (data : jsobj) (m : t) :
  let once := onPropertyStatus data m in
  let twice := onPropertyStatus data once.1 in
  properties twice.1 = properties once.1
  ∧ twice.1 = once.1
  ∧ twice.2 = once.2
  ∧ once.2 =
      (λ h, Call h (properties once.1)) <$>
        Model.subscribers PROPERTY_STATUS (handlers m)
  ∧ twice.2 =
      (λ h, Call h (properties twice.1)) <$>
        Model.subscribers PROPERTY_STATUS (handlers m)
  ∧ ∀ key,
      key ∈ own_keys data →
      hasOwnProperty (propertyDescriptions m) key = true →
      is_nullish (get data key) = false →
      properties once.1 !! key = Some (get data key)
      ∧ properties twice.1 !! key = Some (get data key).
Proof.
  assert (properties (onPropertyStatus data (onPropertyStatus data m).1).1
          = properties (onPropertyStatus data m).1) as Hsame.
  { apply map_eq. intros key.
    rewrite (onPropertyStatus_properties data (onPropertyStatus data m).1).
    simpl propertyDescriptions.
    rewrite (onPropertyStatus_properties data m).
    by destruct (_ && _). }
  assert (∀ key,
            key ∈ own_keys data →
            hasOwnProperty (propertyDescriptions m) key = true →
            is_nullish (get data key) = false →
            properties (onPropertyStatus data m).1 !! key
              = Some (get data key)) as Hstored.
  { intros key Hin Hdeclared Hvalue.
    rewrite onPropertyStatus_properties, Hdeclared, Hvalue.
    by rewrite bool_decide_eq_true_2. }
  intros once twice. subst once twice.
  split; [exact Hsame|].
  split; [|split; [|split; [reflexivity|split; [reflexivity|]]]].
  - simpl in *. unfold set_properties in *. simpl in *. by rewrite Hsame.
  - simpl in *. unfold handleEvent, set_properties in *. simpl in *.
    by rewrite Hsame.
  - intros key Hin Hdeclared Hvalue. rewrite Hsame.
    split; by apply Hstored.
Qed.

Lemma onPropertyStatus_twice_on_the_lamp :
  let once := onPropertyStatus Sample.reading Sample.watched_lamp in
  let twice := onPropertyStatus Sample.reading once.1 in
  "level" ∈ own_keys Sample.reading
  ∧ properties twice.1 !! "level" = Some (VStr "42")
  ∧ twice.2 = [Call 7 (properties twice.1)].
Proof.
  intros once twice.
  destruct (onPropertyStatus_idempotent Sample.reading Sample.watched_lamp)
    as (_ & _ & _ & _ & Hcalls & Hstored).
  assert ("level" ∈ own_keys Sample.reading) as Hin.
  { apply (bool_decide_unpack _). vm_compute. exact I. }
  split; [exact Hin|]. split.
  - exact (proj2 (Hstored "level" Hin eq_refl eq_refl)).
  - exact Hcalls.
Defined.

(** ** Writing a property *)

Lemma append_empty_r (s : string) : s +:+ "" = s.
Proof.
  induction s as [|c s IH]; [done|].
  change (String c (s +:+ "") = String c s). by rewrite IH.
Qed.

Lemma lookup_own_None {A} (o : obj A) (k : string) :
  lookup_own o k = None ↔ hasOwnProperty o k = false.
Proof.
  unfold hasOwnProperty, own_keys. rewrite bool_decide_eq_false.
  induction o as [|[k' v] o IH]; simpl.
  - split; [set_solver | done].
  - destruct (String.eqb_spec k' k) as [->|Hne].
    + split; [done | set_solver].
    + rewrite IH. set_solver.
Qed.

Lemma lookup_own_is_Some {A} (o : obj A) (k : string) :
  hasOwnProperty o k = true → is_Some (lookup_own o k).
Proof.
  intros Hhas. destruct (lookup_own o k) eqn:Hl; [by eexists|].
  apply lookup_own_None in Hl. congruence.
Qed.

(** C2: for a name the schema does not declare, [setProperty] returns a
    promise already rejected with a message that contains the name, and
    performs no effect at all, so no request is made. *)
Theorem setProperty_unknown_name_rejected_without_request
    (P : Platform) (name : string) (v : value) (m : t) :
  hasOwnProperty (propertyDescriptions m) name = false →
  ∃ reason,
    setProperty P name v m = ([], Settled (Rejected reason))
    ∧ contains name reason.
Proof.
  intros Hno. apply lookup_own_None in Hno.
  unfold setProperty. rewrite Hno. eexists. split; [done|].
  exists "Unavailable property name ", "".
  by rewrite append_empty_r.
Qed.

(** C4: for a name the schema declares, [setProperty] issues exactly one
    request, a PUT to the address of that property whose body is the
    serialised object with the single entry [name] mapped to the coerced
    value: [parseFloat] of the value for the declared type number,
    [parseInt] for integer, [Boolean] for boolean, and the value itself
    for any other declared type. *)
Theorem setProperty_sends_the_coerced_value
    (P : Platform) (name : string) (v : value) (m : t) :
  hasOwnProperty (propertyDescriptions m) name = true →
  ∃ property coerced,
    lookup_own (propertyDescriptions m) name = Some property
    ∧ setProperty P name v m =
        ([Fetch {| target := href property;
                   method := "PUT";
                   req_headers :=
                     set "Content-Type" "application/json" (headers P);
                   body := Some (JSON_stringify P (VObj [(name, coerced)]))
                |}],
         Pending)
    ∧ (type property = VStr "number" → coerced = VNum (parseFloat P v))
    ∧ (type property = VStr "integer" → coerced = VNum (parseInt P v))
    ∧ (type property = VStr "boolean" → coerced = VBool (Boolean v))
    ∧ (type property ≠ VStr "number" →
       type property ≠ VStr "integer" →
       type property ≠ VStr "boolean" → coerced = v).
Proof.
  intros [property Hp]%lookup_own_is_Some.
  exists property, (coerce P (type property) v).
  split; [done|]. split.
  { unfold setProperty. by rewrite Hp. }
  unfold coerce. repeat split.
  - by intros ->.
  - by intros ->.
  - by intros ->.
  - intros Hn Hi Hb. destruct (type property) as [| | | |s| |]; try done.
    destruct (String.eqb_spec s "number"); [congruence|].
    destruct (String.eqb_spec s "integer"); [congruence|].
    destruct (String.eqb_spec s "boolean"); [congruence|]. done.
Qed.

(** ** Events *)

Section EventLoop.

Variables (descs data : jsobj).

Lemma onEvent_loop_delta (keys : list string)
    (acc : gmap string value * list jsobj) (key : string) :
  (foldl (onEvent_body descs data) acc keys).1 !! key =
    if bool_decide (key ∈ keys) && hasOwnProperty descs key
    then Some (get data key) else acc.1 !! key.
Proof.
  revert acc. induction keys as [|k keys IH]; intros acc; simpl; [done|].
  rewrite IH. unfold onEvent_body.
  destruct (decide (key = k)) as [->|Hne].
  - rewrite (bool_decide_eq_true_2 (k ∈ k :: keys)) by set_solver.
    destruct (hasOwnProperty descs k); simpl;
      rewrite ?andb_true_r, ?andb_false_r; [|done].
    rewrite lookup_insert_eq. by case_bool_decide.
  - assert ((if negb (hasOwnProperty descs k) then acc
             else (<[k:=get data k]> acc.1,
                   acc.2 ++ [[(k, get data k)]])).1 !! key
            = acc.1 !! key) as ->.
    { destruct (hasOwnProperty descs k); simpl; [|done].
      by rewrite lookup_insert_ne. }
    destruct (hasOwnProperty descs key);
      rewrite ?andb_true_r, ?andb_false_r; [|done].
    repeat case_bool_decide; set_solver.
Qed.

Lemma onEvent_loop_log (keys : list string)
    (acc : gmap string value * list jsobj) :
  (foldl (onEvent_body descs data) acc keys).2 =
    acc.2 ++ ((λ k, [(k, get data k)]) <$>
                filter (λ k, hasOwnProperty descs k) keys).
Proof.
  revert acc. induction keys as [|k keys IH]; intros acc; simpl.
  - by rewrite app_nil_r.
  - rewrite IH. unfold onEvent_body.
    destruct (hasOwnProperty descs k) eqn:Hk; simpl.
    + rewrite filter_cons_True by (by rewrite Hk).
      by rewrite fmap_cons, <- app_assoc.
    + rewrite filter_cons_False by (rewrite Hk; naive_solver).
      done.
Qed.

End EventLoop.

(** C5: [onEvent] hands to each EVENT_OCCURRED subscriber, once, a delta
    object that holds exactly the entries of the incoming payload whose
    keys the event schema declares, and nothing of the earlier history;
    it appends to [events] one single-entry object [{key: data[key]}] per
    such key, in the enumeration order of the payload, and changes
    nothing else in the model. *)
Theorem onEvent_emits_delta_and_appends_it (data : jsobj) (m : t) :
  let m' := (onEvent data m).1 in
  ∃ delta : gmap string value,
    (∀ key,
       delta !! key =
         if bool_decide (key ∈ own_keys data)
            && hasOwnProperty (eventDescriptions m) key
         then Some (get data key) else None)
    ∧ (onEvent data m).2 =
        (λ h, Call h delta) <$> Model.subscribers EVENT_OCCURRED (handlers m)
    ∧ events m' =
        events m ++
          ((λ key, [(key, get data key)]) <$>
             filter (λ key, hasOwnProperty (eventDescriptions m) key)
                    (own_keys data))
    ∧ m' = set_events (events m') m.
Proof.
  simpl.
  exists (foldl (onEvent_body (eventDescriptions m) data) (∅, events m)
                (own_keys data)).1.
  split; [|split; [done|split; [|done]]].
  - intros key. rewrite onEvent_loop_delta. simpl.
    by rewrite lookup_empty.
  - by rewrite onEvent_loop_log.
Qed.

(** Reading an object entry by entry. *)
Lemma lookup_own_list_to_map (o : jsobj) (key : string) :
  (list_to_map o : gmap string value) !! key = lookup_own o key.
Proof.
  induction o as [|[k v] o IH]; simpl; [done|].
  destruct (String.eqb_spec k key) as [->|Hne].
  - by rewrite lookup_insert_eq.
  - by rewrite lookup_insert_ne.
Qed.

Lemma lookup_own_filter (keep : string → bool) (o : jsobj) (key : string) :
  lookup_own (filter (λ kv, keep kv.1) o) key =
    if keep key then lookup_own o key else None.
Proof.
  induction o as [|[k v] o IH]; simpl; [by destruct (keep key)|].
  destruct (keep k) eqn:Hk.
  - rewrite filter_cons_True by (simpl; by rewrite Hk). simpl.
    destruct (String.eqb_spec k key) as [->|Hne]; [by rewrite Hk | done].
  - rewrite filter_cons_False by (simpl; rewrite Hk; naive_solver).
    destruct (String.eqb_spec k key) as [->|Hne]; [by rewrite IH, Hk | done].
Qed.

Lemma lookup_own_NoDup (o : jsobj) (k : string) (v : value) :
  NoDup (own_keys o) → (k, v) ∈ o → lookup_own o k = Some v.
Proof.
  unfold own_keys.
  induction o as [|[k' v'] o IH]; simpl; intros Hnd Hin; [set_solver|].
  apply NoDup_cons in Hnd as [Hfresh Hnd].
  apply elem_of_cons in Hin as [[= -> ->]|Hin].
  - by rewrite String.eqb_refl.
  - destruct (String.eqb_spec k' k) as [->|Hne]; [|by apply IH].
    exfalso. apply Hfresh. apply list_elem_of_fmap. by exists (k, v).
Qed.

Lemma restriction_entries (keep : string → bool) (full o : jsobj) :
  (∀ kv, kv ∈ o → get full kv.1 = kv.2) →
  (λ k, [(k, get full k)]) <$> filter (λ k, keep k) o.*1 =
    (λ kv, [kv]) <$> filter (λ kv, keep kv.1) o.
Proof.
  induction o as [|[k v] o IH]; intros Hget; simpl; [done|].
  assert (∀ kv, kv ∈ o → get full kv.1 = kv.2) as Ho by set_solver.
  destruct (keep k) eqn:Hk.
  - rewrite !filter_cons_True by (simpl; by rewrite Hk).
    rewrite !fmap_cons. f_equal; [|by apply IH].
    pose proof (Hget (k, v) ltac:(set_solver)) as Hkv. simpl in Hkv.
    by rewrite Hkv.
  - rewrite !filter_cons_False by (simpl; rewrite Hk; naive_solver).
    by apply IH.
Qed.

(** For a payload whose keys are pairwise distinct, as the keys of an
    object are, the delta and the appended entries are both the payload
    restricted to the event schema. *)
Lemma onEvent_delta_is_the_restriction (data : jsobj) (m : t) :
  NoDup (own_keys data) →
  let known :=
    filter (λ kv, hasOwnProperty (eventDescriptions m) kv.1) data in
  (onEvent data m).2 =
    (λ h, Call h (list_to_map known)) <$>
      Model.subscribers EVENT_OCCURRED (handlers m)
  ∧ events (onEvent data m).1 = events m ++ ((λ kv, [kv]) <$> known).
Proof.
  intros Hnd known. simpl. split.
  - unfold handleEvent. simpl. f_equal.
    replace (list_to_map known)
      with (foldl (onEvent_body (eventDescriptions m) data) (∅, events m)
                  (own_keys data)).1; [done|].
    apply map_eq. intros key.
    rewrite onEvent_loop_delta, lookup_own_list_to_map. unfold known.
    simpl. rewrite lookup_empty.
    rewrite (lookup_own_filter (hasOwnProperty (eventDescriptions m))).
    destruct (hasOwnProperty (eventDescriptions m) key);
      rewrite ?andb_true_r, ?andb_false_r; [|done].
    case_bool_decide as Hin.
    + destruct (lookup_own_is_Some data key) as [v Hv];
        [by apply bool_decide_eq_true_2|].
      unfold get. by rewrite Hv.
    + symmetry. apply lookup_own_None. by apply bool_decide_eq_false_2.
  - rewrite onEvent_loop_log. simpl. f_equal. unfold known, own_keys.
    assert (∀ kv, kv ∈ data → get data kv.1 = kv.2) as Hget.
    { intros [k v] Hin. unfold get. simpl.
      by rewrite (lookup_own_NoDup data k v). }
    by apply restriction_entries.
Qed.

(** ** Subscription *)

Lemma subscribers_subscribe (e : event) (h : handler)
    (reg : Model.registry) :
  h ∈ Model.subscribers e (Model.subscribe e h reg).
Proof.
  unfold Model.subscribers, Model.subscribe.
  apply list_elem_of_fmap. exists (e, h). split; [done|].
  apply list_elem_of_filter. split; [done|].
  case_bool_decide; [done|]. set_solver.
Qed.

(** C10: [subscribe(PROPERTY_STATUS, handler)] calls the handler exactly
    once, at once, with the current [properties] map;
    [subscribe(EVENT_OCCURRED, handler)] calls nothing.  In both cases the
    handler is registered for the kind afterwards, earlier registrations
    are kept, and nothing but the registry changes in the model. *)
Theorem subscribe_calls_back_only_for_property_status (h : handler) (m : t) :
  let on_status := subscribe PROPERTY_STATUS h m in
  let on_event := subscribe EVENT_OCCURRED h m in
  on_status.2 = [Call h (properties m)]
  ∧ on_event.2 = []
  ∧ h ∈ Model.subscribers PROPERTY_STATUS (handlers on_status.1)
  ∧ h ∈ Model.subscribers EVENT_OCCURRED (handlers on_event.1)
  ∧ handlers m ⊆ handlers on_status.1
  ∧ handlers m ⊆ handlers on_event.1
  ∧ on_status.1 = set_handlers (handlers on_status.1) m
  ∧ on_event.1 = set_handlers (handlers on_event.1) m.
Proof.
  simpl. split; [done|]. split; [done|].
  split; [apply subscribers_subscribe|].
  split; [apply subscribers_subscribe|].
  unfold Model.subscribe.
  split; [|split; [|done]]; case_bool_decide; set_solver.
Qed.

(** ** What an action can change *)

Lemma same_data_refl (m : t) : same_data m m.
Proof. by repeat split. Qed.

Create HintDb model.

#[local] Hint Resolve same_data_refl : model.
#[local] Hint Constructors data_change : model.

Lemma cleanup_same_data (m m' : t) (trace : list effect) :
  cleanup m = Return (m', trace) → same_data m m'.
Proof.
  unfold cleanup. destruct (ws m); [|done]. intros [= <- _].
  by repeat split.
Qed.

Lemma run_data_change (P : Platform) (a : action) (m : t) :
  data_change m a (run P a m).1.
Proof.
  destruct a as [e h|name v|name o| |os| |o| |o|updates|o| | |msg|]; simpl.
  - apply Unchanged. by destruct e.
  - auto with model.
  - destruct (hasOwnProperty _ _); [|auto with model].
    destruct o as [r|error]; simpl; [|auto with model].
    destruct (ok r); [|auto with model].
    destruct (json r) as [data|]; [|auto with model].
    by apply (Reconciled _ _ _ data).
  - auto with model.
  - unfold updateProperties_settled.
    destruct (all os) as [error|responses]; [auto with model|].
    by eapply Reconciled.
  - auto with model.
  - destruct (eventsHref m); [|auto with model].
    unfold updateEvents_settled.
    destruct (parsed o) as [error|evs] eqn:Ho; [auto with model|].
    by eapply Resynced.
  - auto with model.
  - destruct o as [r|error]; simpl; [|auto with model].
    destruct (ok r); [|auto with model].
    destruct (cleanup m) as [[m' trace]|error] eqn:Hc; [|auto with model].
    apply Unchanged. by eapply cleanup_same_data.
  - auto with model.
  - destruct o as [r|error]; simpl; [|auto with model].
    destruct (ok r); auto with model.
  - destruct (cleanup m) as [[m' trace]|error] eqn:Hc; [|auto with model].
    apply Unchanged. by eapply cleanup_same_data.
  - destruct (ws m) as [w|]; [|auto with model].
    destruct (open_armed w); [|auto with model].
    apply Unchanged. by repeat split.
  - destruct (ws m) as [w|]; [|auto with model].
    destruct (listening w); [|auto with model].
    unfold ws_onmessage.
    destruct (String.eqb _ "propertyStatus"); [by eapply Reconciled|].
    destruct (String.eqb _ "event"); [by eapply Recorded|].
    auto with model.
  - destruct (ws m) as [w|]; [|auto with model].
    apply Unchanged. by repeat split.
Qed.

Lemma run_keeps_schemas (P : Platform) (a : action) (m : t) :
  propertyDescriptions (run P a m).1 = propertyDescriptions m
  ∧ eventDescriptions (run P a m).1 = eventDescriptions m.
Proof.
  destruct (run_data_change P a m)
    as [Hsame|data Hr|data Hr|o evs _ _ Hr];
    [by destruct Hsame as (?&?&_)|..]; rewrite Hr; simpl; done.
Qed.

Lemma runs_cons (P : Platform) (a : action) (acts : list action) (m : t) :
  (runs P (a :: acts) m).1 = (runs P acts (run P a m).1).1.
Proof.
  cbn [runs]. destruct (run P a m) as [m' trace]. cbn [fst].
  by destruct (runs P acts m').
Qed.

Lemma constructor_data (P : Platform) (desc : description)
    (m : t) (trace : list effect) :
  constructor P desc = Some (m, trace) →
  properties m = ∅ ∧ events m = []
  ∧ propertyDescriptions m = default [] (d_properties desc)
  ∧ eventDescriptions m = default [] (d_events desc).
Proof.
  unfold constructor, initWebsocket. intros Hc.
  apply bind_Some in Hc as (thing & _ & Hc).
  apply bind_Some in Hc as (collection & _ & Hc).
  simpl in Hc. destruct thing; injection Hc as <- _; done.
Qed.

(** ** The cache stays within the schema *)

Lemma onPropertyStatus_within_schema (data : jsobj) (m : t) :
  properties_within_schema m →
  properties_within_schema (onPropertyStatus data m).1.
Proof.
  intros Hm key Hkey. rewrite onPropertyStatus_properties.
  simpl in Hkey. rewrite Hkey, andb_false_r. simpl. by apply Hm.
Qed.

Lemma run_within_schema (P : Platform) (a : action) (m : t) :
  properties_within_schema m → properties_within_schema (run P a m).1.
Proof.
  intros Hm.
  destruct (run_data_change P a m)
    as [Hsame|data Hr|data Hr|o evs _ _ Hr].
  - destruct Hsame as (Hp&_&Hprops&_).
    intros key. rewrite Hp, Hprops. apply Hm.
  - rewrite Hr. by apply onPropertyStatus_within_schema.
  - by rewrite Hr.
  - by rewrite Hr.
Qed.

(** C3: in every state a model can reach from its construction, through
    any sequence of method calls, settled requests and stream messages,
    the schema is the one it was built with and [properties] holds no key
    outside it: a name the schema does not declare is never stored. *)
Theorem properties_hold_only_schema_keys (P : Platform) (desc : description)
    (m0 : t) (trace0 : list effect) (acts : list action) :
  constructor P desc = Some (m0, trace0) →
  let m := (runs P acts m0).1 in
  propertyDescriptions m = default [] (d_properties desc)
  ∧ ∀ key, hasOwnProperty (propertyDescriptions m) key = false →
           properties m !! key = None.
Proof.
  intros (Hprops & _ & Hschema & _)%constructor_data.
  assert (properties_within_schema m0) as Hinv.
  { intros key _. by rewrite Hprops. }
  rewrite <- Hschema. clear Hprops Hschema.
  assert (∀ m1, properties_within_schema m1 →
                propertyDescriptions (runs P acts m1).1
                  = propertyDescriptions m1
                ∧ properties_within_schema (runs P acts m1).1) as Hruns.
  { induction acts as [|a acts IH]; intros m1 H1; [done|].
    rewrite runs_cons.
    destruct (IH (run P a m1).1) as [-> ?]; [by apply run_within_schema|].
    split; [apply run_keeps_schemas | done]. }
  by apply Hruns.
Qed.

(** ** The log and the event schema *)

Lemma onEvent_within_schema (data : jsobj) (m : t) :
  events_within_schema m → events_within_schema (onEvent data m).1.
Proof.
  unfold events_within_schema. simpl. rewrite onEvent_loop_log. simpl.
  intros Hm entry key [Hold|Hnew]%elem_of_app Hkey; [by eapply Hm|].
  apply list_elem_of_fmap in Hnew as (k & -> & Hk).
  apply list_elem_of_filter in Hk as [Hk _].
  assert (key = k) as -> by set_solver.
  by apply Is_true_true.
Qed.

Lemma run_events_within_schema (P : Platform) (a : action) (m : t) :
  events_within_schema m →
  resync_within_schema (eventDescriptions m) a →
  events_within_schema (run P a m).1.
Proof.
  intros Hm Ha.
  destruct (run_data_change P a m) as [Hsame|data Hr|data Hr|o evs -> Ho Hr].
  - destruct Hsame as (_&He&_&Hevs).
    unfold events_within_schema. by rewrite He, Hevs.
  - by rewrite Hr.
  - rewrite Hr. by apply onEvent_within_schema.
  - rewrite Hr. simpl in Ha. by rewrite Ho in Ha.
Qed.

(** C6 does not hold as the specification words it: the lamp declares
    one event, [overheated]; when its [updateEvents] read returns a
    collection with a [doorbell] entry, that entry is in [events]
    afterwards. *)
Lemma updateEvents_stores_undeclared_events :
  let resync :=
    UpdateEventsSettled
      (Response {| ok := true; status := 200; statusText := "OK";
                   json := Some [[("doorbell", VObj [])]] |}) in
  Sample.built Sample.lamp = Some Sample.lamp_model
  ∧ events_within_schema Sample.lamp_model
  ∧ events (run Sample.browser resync Sample.lamp_model).1
      = [[("doorbell", VObj [])]]
  ∧ ¬ events_within_schema (run Sample.browser resync Sample.lamp_model).1.
Proof.
  split; [done|]. split; [|split; [done|]].
  - intros entry key Hin. by apply elem_of_nil in Hin.
  - intros Hinv.
    specialize (Hinv [("doorbell", VObj [])] "doorbell").
    discriminate Hinv; set_solver.
Qed.

(** C6, amended: in every state a model reaches from its construction,
    through any sequence of operations, the keys of every entry of
    [events] are declared by the event schema, provided every events
    collection that a settled [updateEvents] read delivered on the way
    had only declared keys; [updateEvents] itself stores the collection
    as it comes. *)
Theorem events_hold_only_schema_keys_unless_resynced
    (P : Platform) (desc : description) (m0 : t) (trace0 : list effect)
    (acts : list action) :
  constructor P desc = Some (m0, trace0) →
  Forall (resync_within_schema (default [] (d_events desc))) acts →
  let m := (runs P acts m0).1 in
  eventDescriptions m = default [] (d_events desc)
  ∧ ∀ entry key, entry ∈ events m → key ∈ own_keys entry →
                 hasOwnProperty (eventDescriptions m) key = true.
Proof.
  intros (_ & Hevents & _ & Hschema)%constructor_data.
  assert (events_within_schema m0) as Hinv.
  { intros entry key Hin. rewrite Hevents in Hin.
    by apply elem_of_nil in Hin. }
  rewrite <- Hschema. clear Hevents Hschema. revert m0 Hinv.
  induction acts as [|a acts IH]; intros m0 Hinv Hacts; [done|].
  apply Forall_cons in Hacts as [Ha Hacts].
  rewrite runs_cons.
  destruct (run_keeps_schemas P a m0) as [_ Hsame].
  rewrite <- Hsame in Hacts.
  assert (events_within_schema (run P a m0).1) as Hstep
    by (by apply run_events_within_schema).
  destruct (IH _ Hstep Hacts) as [Heq Hin].
  split; [by rewrite Heq | done].
Qed.

(** ** Removing the thing *)

Lemma prefix_append (s suf : string) : String.prefix s (s +:+ suf) = true.
Proof.
  induction s as [|c s IH]; [by destruct suf|].
  change (String c s +:+ suf) with (String c (s +:+ suf)). simpl.
  by destruct (ascii_dec c c).
Qed.

Lemma includes_unfold (needle hay : string) :
  includes needle hay =
    String.prefix needle hay ||
    match hay with
    | EmptyString => false
    | String _ hay' => includes needle hay'
    end.
Proof. by destruct hay. Qed.

Lemma contains_includes (needle hay : string) :
  contains needle hay → includes needle hay = true.
Proof.
  intros (pre & suf & ->).
  induction pre as [|c pre IH].
  - change ("" +:+ needle +:+ suf) with (needle +:+ suf).
    by rewrite includes_unfold, prefix_append.
  - change (String c pre +:+ needle +:+ suf)
      with (String c (pre +:+ needle +:+ suf)).
    rewrite includes_unfold, IH. apply orb_true_r.
Qed.

(** C8 does not hold as the specification words it: when the request
    fails in transport, the promise is rejected with one fixed reason,
    whatever the failure was, and the reason carries no text of it. *)
Lemma removeThing_transport_failure_reason_is_fixed :
  let m := Sample.lamp_model in
  removeThing_settled (NetworkError "connection reset") m
    = (m, [Console "error" "connection reset"],
       Rejected "Error occurred while removing thing")
  ∧ removeThing_settled (NetworkError "timed out") m
    = (m, [Console "error" "timed out"],
       Rejected "Error occurred while removing thing")
  ∧ ¬ contains "connection reset" "Error occurred while removing thing"
  ∧ ¬ contains "timed out" "Error occurred while removing thing".
Proof.
  repeat split; intros Hc%contains_includes; vm_compute in Hc; done.
Qed.

(** C8, amended: [removeThing] issues one DELETE of the thing's address.
    When the response is successful and the model has a stream, it calls
    [close] on the stream, clears the registry, changes nothing else, and
    resolves.  When the response is not successful, it rejects with a
    reason that contains the status text; when the request fails in
    transport, it rejects with the fixed reason [Error occurred while
    removing thing]; in both cases the model is unchanged, so the stream
    is not closed and the subscribers stay registered. *)
Theorem removeThing_tears_down_only_on_success (P : Platform) (m : t) :
  removeThing P m =
    ([Fetch {| target := url_href <$> thing_href m;
               method := "DELETE";
               req_headers := [("Authorization", "Bearer " +:+ jwt P);
                               ("Accept", "application/json");
                               ("Content-Type", "application/json")];
               body := None |}],
     Pending)
  ∧ (∀ r w, ok r = true → ws m = Some w →
       removeThing_settled (Response r) m =
         (set_handlers [] (set_ws (Some (close w)) m),
          [Console "log" "Successfully removed Thing."; WebSocketClose],
          Resolved)
       ∧ closed (close w) = true)
  ∧ (∀ r, ok r = false →
       ∃ reason,
         removeThing_settled (Response r) m = (m, [], Rejected reason)
         ∧ contains (statusText r) reason)
  ∧ (∀ error,
       removeThing_settled (NetworkError error) m =
         (m, [Console "error" error],
          Rejected "Error occurred while removing thing")).
Proof.
  split; [done|]. split; [|split; [|done]].
  - intros r w Hok Hw. unfold removeThing_settled, cleanup.
    by rewrite Hok, Hw.
  - intros r Hok. unfold removeThing_settled. rewrite Hok.
    eexists. split; [done|].
    exists "Failed removing thing ", "". by rewrite append_empty_r.
Qed.

(** ** The stream *)

Lemma count_app (p : effect → bool) (t1 t2 : list effect) :
  count p (t1 ++ t2) = count p t1 + count p t2.
Proof. unfold count. by rewrite filter_app, length_app. Qed.

Lemma count_cons (p : effect → bool) (e : effect) (trace : list effect) :
  count p (e :: trace) = (if p e then 1 else 0) + count p trace.
Proof.
  unfold count. destruct (p e) eqn:He.
  - by rewrite filter_cons_True by (by rewrite He).
  - by rewrite filter_cons_False by (rewrite He; naive_solver).
Qed.

Lemma count_fmap_none {A} (p : effect → bool) (f : A → effect)
    (l : list A) :
  (∀ x, p (f x) = false) → count p (f <$> l) = 0.
Proof.
  intros Hf. unfold count. induction l as [|x l IH]; [done|].
  rewrite fmap_cons, filter_cons_False; [done|].
  rewrite Hf. naive_solver.
Qed.

Lemma quiet_app (t1 t2 : list effect) :
  quiet t1 → quiet t2 → quiet (t1 ++ t2).
Proof.
  unfold quiet, opened, closings. intros [H1 H1'] [H2 H2'].
  rewrite !count_app. lia.
Qed.

Lemma quiet_handleEvent (e : event) (payload : gmap string value) (m : t) :
  quiet (handleEvent e payload m).
Proof.
  unfold handleEvent, Model.handleEvent. split; by apply count_fmap_none.
Qed.

Lemma quiet_updateProperties (P : Platform) (m : t) :
  quiet (updateProperties P m).
Proof.
  unfold updateProperties. split; by apply count_fmap_none.
Qed.

Lemma quiet_updateEvents (P : Platform) (m : t) : quiet (updateEvents P m).
Proof. unfold updateEvents. by destruct (eventsHref m). Qed.

#[local] Hint Resolve quiet_handleEvent quiet_updateProperties
  quiet_updateEvents : model.

Lemma run_stream (P : Platform) (a : action) (m : t) :
  opened (run P a m).2 = 0
  ∧ closings (run P a m).2 =
      (if tears_down a && bool_decide (is_Some (ws m)) then 1 else 0)
  ∧ ws_url <$> ws (run P a m).1 = ws_url <$> ws m.
Proof.
  assert (∀ r : t * list effect,
            quiet r.2 → tears_down a = false → ws r.1 = ws m →
            opened r.2 = 0
            ∧ closings r.2 =
                (if tears_down a && bool_decide (is_Some (ws m))
                 then 1 else 0)
            ∧ ws_url <$> ws r.1 = ws_url <$> ws m) as Hquiet.
  { intros r [Ho Hc] -> Hws. by rewrite Hws. }
  destruct a as [e h|name v|name o| |os| |o| |o|updates|o| | |msg|];
    simpl tears_down.
  - apply Hquiet; by destruct e.
  - apply Hquiet; [|done..]. simpl. unfold setProperty.
    by destruct (lookup_own _ _).
  - apply Hquiet; [|done|]; simpl;
      (destruct (hasOwnProperty _ _); [|done]);
      (destruct o as [r|error]; simpl; [|done]);
      (destruct (ok r); [|done]);
      destruct (json r); simpl; by auto with model.
  - apply Hquiet; simpl; by auto with model.
  - apply Hquiet; [|done|]; simpl; unfold updateProperties_settled;
      destruct (all os); simpl; by auto with model.
  - apply Hquiet; simpl; by auto with model.
  - apply Hquiet; [|done|]; simpl; destruct (eventsHref m); try done;
      unfold updateEvents_settled; by destruct (parsed o).
  - by apply Hquiet.
  - destruct o as [r|error]; [|by apply Hquiet].
    clear Hquiet. simpl. destruct (ok r); [|done].
    unfold cleanup. destruct (ws m) as [w|] eqn:Hw; simpl; by rewrite ?Hw.
  - by apply Hquiet.
  - apply Hquiet; [|done|]; destruct o as [r|error]; simpl; try done;
      by destruct (ok r).
  - simpl. unfold cleanup.
    destruct (ws m) as [w|] eqn:Hw; simpl; by rewrite ?Hw.
  - simpl. destruct (ws m) as [w|] eqn:Hw; simpl; [|by rewrite Hw].
    destruct (open_armed w); simpl; [|by rewrite Hw].
    unfold ws_onopen. by destruct (bool_decide (length _ = 0)).
  - apply Hquiet; [|done|]; simpl; destruct (ws m) as [w|] eqn:Hw;
      try done; destruct (listening w); try done; unfold ws_onmessage;
      (destruct (String.eqb _ "propertyStatus"); simpl;
         [by auto with model|]);
      destruct (String.eqb _ "event"); simpl; by auto with model.
  - simpl. destruct (ws m) as [w|] eqn:Hw; simpl; by rewrite ?Hw.
Qed.

Lemma runs_trace_cons (P : Platform) (a : action) (acts : list action)
    (m : t) :
  (runs P (a :: acts) m).2 = (run P a m).2 ++ (runs P acts (run P a m).1).2.
Proof.
  cbn [runs]. destruct (run P a m) as [m' trace]. cbn [fst snd].
  by destruct (runs P acts m').
Qed.

Lemma teardowns_cons (a : action) (acts : list action) :
  teardowns (a :: acts) = (if tears_down a then 1 else 0) + teardowns acts.
Proof.
  unfold teardowns. destruct (tears_down a) eqn:Ha.
  - by rewrite filter_cons_True by (by rewrite Ha).
  - by rewrite filter_cons_False by (rewrite Ha; naive_solver).
Qed.

Lemma runs_stream (P : Platform) (acts : list action) (m : t) :
  opened (runs P acts m).2 = 0
  ∧ closings (runs P acts m).2 =
      (if ws m is Some _ then teardowns acts else 0)
  ∧ ws_url <$> ws (runs P acts m).1 = ws_url <$> ws m.
Proof.
  revert m. induction acts as [|a acts IH]; intros m.
  - simpl. by destruct (ws m).
  - rewrite runs_cons, runs_trace_cons, teardowns_cons.
    destruct (run_stream P a m) as (Ho & Hc & Hws).
    destruct (IH (run P a m).1) as (Ho' & Hc' & Hws').
    unfold opened, closings in *. rewrite !count_app.
    rewrite Ho, Ho', Hc, Hc', Hws', Hws. split; [done|]. split; [|done].
    destruct (ws m) as [w|], (ws (run P a m).1) as [w'|]; try done.
    + rewrite bool_decide_eq_true_2 by done. by destruct (tears_down a).
    + by rewrite andb_false_r.
Qed.

Lemma constructor_stream (P : Platform) (desc : description) (m : t)
    (trace : list effect) :
  constructor P desc = Some (m, trace) →
  closings trace = 0
  ∧ ((has_address desc ∧ opened trace = 1
      ∧ ∃ w, ws m = Some w ∧ closed w = false)
     ∨ (¬ has_address desc ∧ opened trace = 0 ∧ ws m = None)).
Proof.
  unfold constructor. intros Hc.
  apply bind_Some in Hc as (thing & Hthing & Hc).
  apply bind_Some in Hc as (collection & _ & Hc).
  assert (quiet (updateEvents P m ++ updateProperties P m)) as [Ho Hcl]
    by (apply quiet_app; auto with model).
  unfold opened, closings in *.
  destruct thing as [u|]; simpl in Hc; injection Hc as <- <-.
  - rewrite !count_cons, Ho, Hcl. split; [done|]. left.
    split; [|split; [done | by eexists]].
    unfold has_address.
    destruct (d_href desc) as [h|]; [|done]. exists h. split; [done|].
    by intros ->.
  - simpl. rewrite Ho, Hcl. split; [done|]. right. split; [|done].
    intros (h & Hh & Hne). rewrite Hh in Hthing.
    assert (resolve P (Some h) = Some None) as Hr.
    { by destruct h. }
    unfold resolve in Hr. by destruct (new_URL P h (ORIGIN P)).
Qed.

(** C9 does not hold as the specification words it: the model built from
    a description without a resource address opens no stream at
    construction and has no stream connection, so its teardown has nothing
    to close. *)
Lemma model_without_address_has_no_stream :
  ∃ trace,
    constructor Sample.browser Sample.orphan
      = Some (Sample.orphan_model, trace)
    ∧ opened trace = 0
    ∧ ws Sample.orphan_model = None
    ∧ closings (run Sample.browser Cleanup Sample.orphan_model).2 = 0.
Proof. by eexists. Qed.

(** C9, amended: a model built from a description with a resource address
    opens exactly one stream connection, at construction, and a model
    built from a description without one has no stream connection.  No
    later operation opens a stream or replaces the connection, and the
    connection of a model that has one receives exactly one [close] call
    per teardown ([cleanup], or [removeThing] settling with a successful
    response) and none from any other operation. *)
Theorem one_stream_for_a_model_with_an_address
    (P : Platform) (desc : description) (m0 : t) (trace0 : list effect) :
  constructor P desc = Some (m0, trace0) →
  (has_address desc →
     opened trace0 = 1 ∧ ∃ w, ws m0 = Some w ∧ closed w = false)
  ∧ (¬ has_address desc → opened trace0 = 0 ∧ ws m0 = None)
  ∧ closings trace0 = 0
  ∧ ∀ acts,
      opened (runs P acts m0).2 = 0
      ∧ closings (runs P acts m0).2 =
          (if ws m0 is Some _ then teardowns acts else 0)
      ∧ ws_url <$> ws (runs P acts m0).1 = ws_url <$> ws m0.
Proof.
  intros [Hclosed Hcases]%constructor_stream.
  split; [|split; [|split; [done|]]].
  - intros Hyes. by destruct Hcases as [(_&?&?)|(Hno&_)].
  - intros Hno. by destruct Hcases as [(Hyes&_)|(_&?&?)].
  - intros acts. apply runs_stream.
Qed.

(** * The scenarios of the specification, run on the lamp *)

(** Scenario A: reconciling [{level: "42", extra: 1, on: null}] stores
    [level] as it came, ignores [extra] and [on], and notifies once. *)
Example scenario_reconcile :
  onPropertyStatus Sample.reading Sample.watched_lamp =
    (set_properties {[ "level" := VStr "42" ]} Sample.watched_lamp,
     [Call 7 {[ "level" := VStr "42" ]}]).
Proof. vm_compute. reflexivity. Qed.

(** Scenario B: [setProperty("level", "3.5")] sends the number. *)
Example scenario_coerce :
  (setProperty Sample.browser "level" (VStr "3.5") Sample.lamp_model).1 =
    [Fetch {| target := Some "/things/lamp/properties/level";
              method := "PUT";
              req_headers := [("Authorization", "Bearer secret");
                              ("Accept", "application/json");
                              ("Content-Type", "application/json")];
              body := Some (JSON_stringify Sample.browser
                              (VObj [("level", VNum 3.5%float)])) |}].
Proof. vm_compute. reflexivity. Qed.

(** Scenario C: [setProperty("missing", 1)] is rejected at once. *)
Example scenario_missing :
  setProperty Sample.browser "missing" (VNum 1) Sample.lamp_model =
    ([], Settled (Rejected "Unavailable property name missing")).
Proof. vm_compute. reflexivity. Qed.

(** Scenario D: an event message adds one entry and notifies the delta. *)
Example scenario_event :
  run Sample.browser
      (StreamMessage {| messageType := "event"; data := Sample.occurrence |})
      Sample.watched_lamp =
    (set_events [[("overheated", VObj [])]] Sample.watched_lamp,
     [Call 8 {[ "overheated" := VObj [] ]}]).
Proof. vm_compute. reflexivity. Qed.

(** Scenario E: a later payload without [level] leaves [level] alone. *)
Example scenario_absent_key :
  properties
    (runs Sample.browser
       [UpdatePropertiesSettled [Sample.success Sample.reading];
        UpdatePropertiesSettled [Sample.success [("on", VBool true)]]]
       Sample.lamp_model).1 =
    {[ "level" := VStr "42"; "on" := VBool true ]}.
Proof. vm_compute. reflexivity. Qed.

(** * Instances of the conditional statements *)

Lemma setProperty_unknown_name_on_the_lamp :
  hasOwnProperty (propertyDescriptions Sample.lamp_model) "missing" = false
  ∧ ∃ reason,
      setProperty Sample.browser "missing" (VNum 1) Sample.lamp_model
        = ([], Settled (Rejected reason))
      ∧ contains "missing" reason.
Proof.
  split; [vm_compute; reflexivity|].
  apply setProperty_unknown_name_rejected_without_request. reflexivity.
Defined.

Lemma setProperty_level_on_the_lamp :
  hasOwnProperty (propertyDescriptions Sample.lamp_model) "level" = true
  ∧ ∃ coerced,
      (setProperty Sample.browser "level" (VStr "3.5") Sample.lamp_model).1
        = [Fetch (setProperty_request Sample.browser
                    {| type := VStr "number";
                       href := Some "/things/lamp/properties/level" |}
                    (VObj [("level", coerced)]))]
      ∧ coerced = VNum (parseFloat Sample.browser (VStr "3.5")).
Proof.
  split; [vm_compute; reflexivity|].
  destruct (setProperty_sends_the_coerced_value
              Sample.browser "level" (VStr "3.5") Sample.lamp_model eq_refl)
    as (property & coerced & Hp & Hs & Hnumber & _).
  injection Hp as <-. exists coerced. split.
  - rewrite Hs. reflexivity.
  - apply Hnumber. reflexivity.
Defined.

Lemma properties_of_the_lamp_stay_within_schema :
  constructor Sample.browser Sample.lamp
    = Some (Sample.lamp_model, Sample.lamp_trace)
  ∧ properties
      (runs Sample.browser
         [StreamMessage {| messageType := "propertyStatus";
                           data := Sample.reading |}]
         Sample.lamp_model).1 !! "extra" = None.
Proof.
  split; [vm_compute; reflexivity|].
  destruct (properties_hold_only_schema_keys
              Sample.browser Sample.lamp Sample.lamp_model Sample.lamp_trace
              [StreamMessage {| messageType := "propertyStatus";
                                data := Sample.reading |}] eq_refl)
    as [_ Hkeys].
  apply Hkeys. reflexivity.
Defined.

Lemma events_of_the_lamp_stay_within_schema :
  let acts :=
    [UpdateEventsSettled (Sample.success [[("overheated", VNull)]]);
     StreamMessage {| messageType := "event"; data := Sample.occurrence |}] in
  constructor Sample.browser Sample.lamp
    = Some (Sample.lamp_model, Sample.lamp_trace)
  ∧ Forall (resync_within_schema (default [] (d_events Sample.lamp))) acts
  ∧ events_within_schema (runs Sample.browser acts Sample.lamp_model).1.
Proof.
  intros acts.
  assert (Forall (resync_within_schema (default [] (d_events Sample.lamp)))
                 acts) as Hacts.
  { constructor; [|constructor; [exact I | constructor]].
    intros entry key ->%list_elem_of_singleton Hkey.
    apply list_elem_of_singleton in Hkey as ->. reflexivity. }
  split; [vm_compute; reflexivity|]. split; [exact Hacts|].
  destruct (events_hold_only_schema_keys_unless_resynced
              Sample.browser Sample.lamp Sample.lamp_model
              Sample.lamp_trace acts eq_refl Hacts) as [Hschema Hkeys].
  unfold events_within_schema, collection_within_schema.
  exact Hkeys.
Defined.

Lemma removeThing_on_the_lamp :
  let w := {| ws_url := "wss://gateway.local/things/lamp?jwt=secret";
              open_armed := true; listening := true; closed := false |} in
  let gone : response unit :=
    {| ok := true; status := 204; statusText := "No Content";
       json := None |} in
  let refused : response unit :=
    {| ok := false; status := 403; statusText := "Forbidden";
       json := None |} in
  ok gone = true ∧ ws Sample.watched_lamp = Some w ∧ ok refused = false
  ∧ removeThing_settled (Response gone) Sample.watched_lamp =
      (set_handlers [] (set_ws (Some (close w)) Sample.watched_lamp),
       [Console "log" "Successfully removed Thing."; WebSocketClose],
       Resolved)
  ∧ ∃ reason,
      removeThing_settled (Response refused) Sample.watched_lamp
        = (Sample.watched_lamp, [], Rejected reason)
      ∧ contains "Forbidden" reason.
Proof.
  intros w gone refused.
  destruct (removeThing_tears_down_only_on_success
              Sample.browser Sample.watched_lamp)
    as (_ & Hsuccess & Hrefused & _).
  do 3 (split; [vm_compute; reflexivity|]).
  split.
  - exact (proj1 (Hsuccess gone w eq_refl eq_refl)).
  - exact (Hrefused refused eq_refl).
Defined.

Lemma one_stream_for_the_lamp :
  constructor Sample.browser Sample.lamp
    = Some (Sample.lamp_model, Sample.lamp_trace)
  ∧ has_address Sample.lamp
  ∧ opened Sample.lamp_trace = 1
  ∧ closings
      (runs Sample.browser [Cleanup; StreamCloseOrError]
            Sample.lamp_model).2 = 1.
Proof.
  destruct (one_stream_for_a_model_with_an_address
              Sample.browser Sample.lamp Sample.lamp_model Sample.lamp_trace
              eq_refl)
    as (Hyes & _ & _ & Hlater).
  assert (has_address Sample.lamp) as Haddress.
  { exists "/things/lamp". split; [reflexivity | discriminate]. }
  split; [vm_compute; reflexivity|]. split; [exact Haddress|]. split.
  - exact (proj1 (Hyes Haddress)).
  - exact (proj1 (proj2 (Hlater [Cleanup; StreamCloseOrError]))).
Defined.

(** * Further properties of the model *)

(** ** Objects kept as lists *)

Lemma lookup_own_set {A} (k : string) (v : A) (o : obj A) (key : string) :
  lookup_own (set k v o) key =
    if String.eqb k key then Some v else lookup_own o key.
Proof.
  induction o as [|[k' v'] o IH]; simpl.
  - done.
  - destruct (String.eqb_spec k' k) as [->|Hne]; simpl.
    + by destruct (String.eqb_spec k key).
    + rewrite IH.
      destruct (String.eqb_spec k' key) as [->|?]; [|done].
      by destruct (String.eqb_spec k key).
Qed.


Lemma lookup_own_key {A} (o : obj A) (k : string) :
  k ∈ own_keys o ↔ is_Some (lookup_own o k).
Proof.
  split.
  - intros Hin. apply lookup_own_is_Some. by apply bool_decide_eq_true_2.
  - intros Hsome. destruct (decide (k ∈ own_keys o)) as [|Hno]; [done|].
    apply (bool_decide_eq_false_2 _) in Hno.
    apply lookup_own_None in Hno. rewrite Hno in Hsome.
    by destruct Hsome.
Qed.

Lemma lookup_own_assign_loop (source : jsobj) (keys : list string)
    (target : jsobj) (key : string) :
  lookup_own (foldl (λ t k, set k (get source k) t) target keys) key =
    if bool_decide (key ∈ keys) then Some (get source key)
    else lookup_own target key.
Proof.
  revert target. induction keys as [|k keys IH]; intros target; simpl.
  - done.
  - rewrite IH, lookup_own_set.
    destruct (String.eqb_spec k key) as [->|Hne];
      repeat case_bool_decide; set_solver.
Qed.

Lemma lookup_own_assign (target source : jsobj) (key : string) :
  lookup_own (assign target source) key =
    if lookup_own source key is Some v then Some v
    else lookup_own target key.
Proof.
  unfold assign. rewrite lookup_own_assign_loop.
  case_bool_decide as Hin.
  - apply lookup_own_key in Hin as [v Hv]. unfold get. by rewrite Hv.
  - destruct (lookup_own source key) eqn:Hv; [|done].
    exfalso. apply Hin. apply lookup_own_key. by eexists.
Qed.

Lemma lookup_own_merged (responses : list jsobj) (target : jsobj)
    (key : string) :
  lookup_own (foldl assign target responses) key =
    foldl (λ found r, if lookup_own r key is Some v then Some v else found)
          (lookup_own target key) responses.
Proof.
  revert target. induction responses as [|r rs IH]; intros target; simpl.
  - done.
  - by rewrite IH, lookup_own_assign.
Qed.

(** ** Reading all properties *)

Lemma all_failed {B} (os : list (outcome B)) :
  Exists failed os → ∃ error, all os = inl error.
Proof.
  induction os as [|o os IH]; intros Hex.
  - by apply Exists_nil in Hex.
  - simpl. destruct (parsed o) as [error|b] eqn:Ho; [by eexists|].
    apply Exists_cons in Hex as [[error He]|Hex]; [congruence|].
    destruct (IH Hex) as [error ->]. by eexists.
Qed.

(** X1: when any one of the reads of [updateProperties] fails, in
    transport or by an unparsable body, nothing of the batch is applied:
    the model is as before and no subscriber is called. *)
Theorem updateProperties_is_all_or_nothing
    (os : list (outcome jsobj)) (m : t) :
  Exists failed os →
  (updateProperties_settled os m).1 = m
  ∧ calls (updateProperties_settled os m).2 = 0.
Proof.
  intros [error Hall]%all_failed.
  unfold updateProperties_settled. by rewrite Hall.
Qed.

Lemma updateProperties_one_read_lost :
  Exists failed [Sample.success Sample.reading; NetworkError "offline"]
  ∧ (updateProperties_settled
       [Sample.success Sample.reading; NetworkError "offline"]
       Sample.watched_lamp).1 = Sample.watched_lamp.
Proof.
  assert (Exists (@failed jsobj)
            [Sample.success Sample.reading; NetworkError "offline"]) as Hex.
  { apply Exists_cons_tl, Exists_cons_hd. by exists "offline". }
  split; [exact Hex|].
  exact (proj1 (updateProperties_is_all_or_nothing _ Sample.watched_lamp Hex)).
Defined.

(** X2: when every read of [updateProperties] succeeds, the bodies are
    merged before they are reconciled, so for each key only the last
    response that has it counts: its value is stored if the key is
    declared and the value is neither undefined nor null, and otherwise
    the entry stays as it was, even if an earlier response of the batch
    had a value for the key. *)
Theorem updateProperties_last_response_counts
    (os : list (outcome jsobj)) (responses : list jsobj) (m : t) :
  all os = inr responses →
  ∀ key,
    properties (updateProperties_settled os m).1 !! key =
      match last_of responses key with
      | Some v =>
          if hasOwnProperty (propertyDescriptions m) key
             && negb (is_nullish v)
          then Some v else properties m !! key
      | None => properties m !! key
      end.
Proof.
  intros Hall key. unfold updateProperties_settled. rewrite Hall.
  rewrite onPropertyStatus_properties. unfold last_of.
  pose proof (lookup_own_merged responses [] key) as Hmerged.
  simpl in Hmerged. rewrite <- Hmerged. unfold get.
  destruct (lookup_own (foldl assign [] responses) key) as [v|] eqn:Hv.
  - rewrite bool_decide_eq_true_2; [done|].
    apply lookup_own_key. by eexists.
  - rewrite bool_decide_eq_false_2; [done|].
    intros [v Hsome]%lookup_own_key. congruence.
Qed.

Lemma updateProperties_null_masks_earlier_value :
  let os := [Sample.success [("level", VNum 7)];
             Sample.success [("level", VNull); ("on", VBool true)]] in
  all os = inr [[("level", VNum 7)]; [("level", VNull); ("on", VBool true)]]
  ∧ properties (updateProperties_settled os Sample.lamp_model).1 !! "level"
      = None
  ∧ properties (updateProperties_settled os Sample.lamp_model).1 !! "on"
      = Some (VBool true).
Proof.
  intros os. split; [reflexivity|].
  pose proof (updateProperties_last_response_counts os _ Sample.lamp_model
                eq_refl) as Hkeys.
  split; [exact (Hkeys "level") | exact (Hkeys "on")].
Defined.

(** ** The answer to a write *)

(** X3: a write that is not answered with success and a parsed body (a
    response that is not ok, a body that does not parse, a transport
    failure) leaves the model as it was, calls no subscriber, and is
    rejected with a reason that contains the name of the property. *)
Theorem setProperty_failure_changes_nothing
    (name : string) (o : outcome jsobj) (m : t) :
  ¬ answered o →
  (setProperty_settled name o m).1.1 = m
  ∧ calls (setProperty_settled name o m).1.2 = 0
  ∧ ∃ reason,
      (setProperty_settled name o m).2 = Rejected reason
      ∧ contains name reason.
Proof.
  intros Hno.
  assert (contains name ("Error trying to set " +:+ name)) as Hname.
  { exists "Error trying to set ", "". by rewrite append_empty_r. }
  destruct o as [r|error]; simpl; [|by eauto].
  destruct (ok r) eqn:Hok; [|by eauto].
  destruct (json r) as [data|] eqn:Hjson; [|by eauto].
  exfalso. apply Hno. by exists r, data.
Qed.

Lemma setProperty_refused_on_the_lamp :
  let refused : outcome jsobj :=
    Response {| ok := false; status := 400; statusText := "Bad Request";
                json := Some [("level", VNum 1)] |} in
  ¬ answered refused
  ∧ (setProperty_settled "level" refused Sample.watched_lamp).1.1
      = Sample.watched_lamp.
Proof.
  intros refused.
  assert (¬ answered refused) as Hno.
  { intros (r & data & [= <-] & Hok & _). discriminate Hok. }
  split; [exact Hno|].
  exact (proj1 (setProperty_failure_changes_nothing
                  "level" refused Sample.watched_lamp Hno)).
Defined.

(** X4: when a write is answered with success and the body echoes a
    value for a declared property that is neither undefined nor null,
    the promise resolves, the cache holds the echoed value for that
    property, and every PROPERTY_STATUS subscriber is called once with
    the cache as it is then. *)
Theorem setProperty_success_stores_the_echo
    (name key : string) (r : response jsobj) (data : jsobj) (v : value)
    (m : t) :
  ok r = true → json r = Some data →
  hasOwnProperty (propertyDescriptions m) key = true →
  lookup_own data key = Some v → is_nullish v = false →
  let result := setProperty_settled name (Response r) m in
  result.2 = Resolved
  ∧ properties result.1.1 !! key = Some v
  ∧ result.1.2 =
      (λ h, Call h (properties result.1.1)) <$>
        Model.subscribers PROPERTY_STATUS (handlers m).
Proof.
  intros Hok Hjson Hkey Hv Hnull result. subst result.
  unfold setProperty_settled. rewrite Hok, Hjson.
  pose proof (onPropertyStatus_properties data m key) as Hstored.
  assert ((onPropertyStatus data m).2 =
            (λ h, Call h (properties (onPropertyStatus data m).1)) <$>
              Model.subscribers PROPERTY_STATUS (handlers m)) as Hcalls
    by reflexivity.
  destruct (onPropertyStatus data m) as [m' trace]. cbn [fst snd] in *.
  split; [done|]. split; [|done].
  rewrite Hstored. unfold get. rewrite Hv, Hkey. simpl.
  rewrite Hnull. simpl.
  rewrite bool_decide_eq_true_2; [done|].
  apply lookup_own_key. by eexists.
Qed.

Lemma setProperty_echo_on_the_lamp :
  let r : response jsobj :=
    {| ok := true; status := 200; statusText := "OK";
       json := Some [("level", VNum 3.5)] |} in
  properties (setProperty_settled "level" (Response r)
                Sample.watched_lamp).1.1 !! "level" = Some (VNum 3.5).
Proof.
  intros r.
  exact (proj1 (proj2 (setProperty_success_stores_the_echo
                         "level" "level" r [("level", VNum 3.5)] (VNum 3.5)
                         Sample.watched_lamp eq_refl eq_refl eq_refl eq_refl
                         eq_refl))).
Defined.

(** ** Payloads that carry nothing *)

Lemma set_properties_same (m : t) : set_properties (properties m) m = m.
Proof. by destruct m. Qed.

Lemma set_events_same (m : t) : set_events (events m) m = m.
Proof. by destruct m. Qed.

(** X5: a status payload none of whose keys is stored (empty, or only
    undeclared names and undefined or null values) leaves the model as it
    was, and still calls every PROPERTY_STATUS subscriber once with the
    unchanged cache. *)
Theorem onPropertyStatus_without_news_still_notifies
    (data : jsobj) (m : t) :
  (∀ key, key ∈ own_keys data →
          accepted (propertyDescriptions m) data key = false) →
  onPropertyStatus data m =
    (m, (λ h, Call h (properties m)) <$>
          Model.subscribers PROPERTY_STATUS (handlers m)).
Proof.
  intros Hnone.
  assert (properties (onPropertyStatus data m).1 = properties m) as Hsame.
  { apply map_eq. intros key. rewrite onPropertyStatus_properties.
    case_bool_decide as Hin; [|done].
    apply Hnone in Hin. unfold accepted in Hin.
    rewrite <- andb_assoc. simpl. by rewrite Hin. }
  unfold onPropertyStatus in *. simpl in *. rewrite Hsame.
  by rewrite set_properties_same.
Qed.

Lemma onPropertyStatus_of_unknown_names :
  let data := [("extra", VNum 1); ("on", VNull)] in
  (∀ key, key ∈ own_keys data →
          accepted (propertyDescriptions Sample.watched_lamp) data key
            = false)
  ∧ onPropertyStatus data Sample.watched_lamp =
      (Sample.watched_lamp, [Call 7 ∅]).
Proof.
  intros data.
  assert (∀ key, key ∈ own_keys data →
            accepted (propertyDescriptions Sample.watched_lamp) data key
              = false) as Hnone.
  { intros key [->| ->%list_elem_of_singleton]%elem_of_cons; reflexivity. }
  split; [exact Hnone|].
  exact (onPropertyStatus_without_news_still_notifies
           data Sample.watched_lamp Hnone).
Defined.

Lemma onEvent_loop_undeclared (descs data : jsobj) (keys : list string)
    (acc : gmap string value * list jsobj) :
  (∀ key, key ∈ keys → hasOwnProperty descs key = false) →
  foldl (onEvent_body descs data) acc keys = acc.
Proof.
  revert acc. induction keys as [|k keys IH]; intros acc Hnone; [done|].
  simpl. unfold onEvent_body at 2.
  rewrite (Hnone k) by set_solver. simpl. apply IH. set_solver.
Qed.

(** X6: an event payload none of whose keys is declared (empty, or only
    unknown event names) leaves the log and the model as they were, and
    still calls every EVENT_OCCURRED subscriber once, with an empty
    object. *)
Theorem onEvent_without_declared_event_notifies_empty
    (data : jsobj) (m : t) :
  (∀ key, key ∈ own_keys data →
          hasOwnProperty (eventDescriptions m) key = false) →
  onEvent data m =
    (m, (λ h, Call h ∅) <$> Model.subscribers EVENT_OCCURRED (handlers m)).
Proof.
  intros Hnone. unfold onEvent.
  rewrite onEvent_loop_undeclared by done. simpl.
  by rewrite set_events_same.
Qed.

Lemma onEvent_of_unknown_names :
  let data := [("doorbell", VBool true)] in
  (∀ key, key ∈ own_keys data →
          hasOwnProperty (eventDescriptions Sample.watched_lamp) key = false)
  ∧ onEvent data Sample.watched_lamp = (Sample.watched_lamp, [Call 8 ∅]).
Proof.
  intros data.
  assert (∀ key, key ∈ own_keys data →
            hasOwnProperty (eventDescriptions Sample.watched_lamp) key
              = false) as Hnone.
  { intros key ->%list_elem_of_singleton. reflexivity. }
  split; [exact Hnone|].
  exact (onEvent_without_declared_event_notifies_empty
           data Sample.watched_lamp Hnone).
Defined.

(** ** The order of the keys of a payload *)




(** ** What no action changes *)

Lemma same_identity_refl (m : t) : same_identity m m.
Proof. by repeat split. Qed.

Lemma same_identity_trans (m1 m2 m3 : t) :
  same_identity m1 m2 → same_identity m2 m3 → same_identity m1 m3.
Proof.
  unfold same_identity. intros (?&?&?&?&?&?&?) (?&?&?&?&?&?&?).
  repeat split; congruence.
Qed.

(** The stream of the model after an action is the one before, possibly
    with [close] called, the [open] listener consumed, or the listeners
    detached. *)
Lemma run_frame (P : Platform) (a : action) (m : t) :
  same_identity m (run P a m).1
  ∧ (ws (run P a m).1 = ws m
     ∨ ∃ w, ws m = Some w
            ∧ (ws (run P a m).1 = Some (close w)
               ∨ ws (run P a m).1 = Some (disarm w)
               ∨ ws (run P a m).1 = Some (ws_cleanup w))).
Proof.
  assert (∀ m', same_identity m m' → ws m' = ws m →
            same_identity m m'
            ∧ (ws m' = ws m
               ∨ ∃ w, ws m = Some w
                      ∧ (ws m' = Some (close w)
                         ∨ ws m' = Some (disarm w)
                         ∨ ws m' = Some (ws_cleanup w)))) as Hkeep
    by auto.
  destruct a as [e h|name v|name o| |os| |o| |o|updates|o| | |msg|]; simpl.
  - apply Hkeep; by destruct e.
  - by apply Hkeep.
  - destruct (hasOwnProperty _ _); [|by apply Hkeep].
    destruct o as [r|error]; simpl; [|by apply Hkeep].
    destruct (ok r); [|by apply Hkeep].
    destruct (json r); by apply Hkeep.
  - by apply Hkeep.
  - unfold updateProperties_settled. destruct (all os); by apply Hkeep.
  - by apply Hkeep.
  - destruct (eventsHref m); [|by apply Hkeep].
    unfold updateEvents_settled. destruct (parsed o); by apply Hkeep.
  - by apply Hkeep.
  - destruct o as [r|error]; simpl; [|by apply Hkeep].
    destruct (ok r); [|by apply Hkeep].
    unfold cleanup. destruct (ws m) as [w|] eqn:Hw; [|by apply Hkeep].
    simpl. split; [done|]. right. exists w. auto.
  - by apply Hkeep.
  - destruct o as [r|error]; simpl; [|by apply Hkeep].
    destruct (ok r); by apply Hkeep.
  - unfold cleanup. destruct (ws m) as [w|] eqn:Hw; [|by apply Hkeep].
    simpl. split; [done|]. right. exists w. auto.
  - destruct (ws m) as [w|] eqn:Hw; [|by apply Hkeep].
    destruct (open_armed w); [|by apply Hkeep].
    simpl. split; [done|]. right. exists w. auto.
  - destruct (ws m) as [w|] eqn:Hw; [|by apply Hkeep].
    destruct (listening w); [|by apply Hkeep].
    unfold ws_onmessage.
    destruct (String.eqb _ "propertyStatus"); [by apply Hkeep|].
    destruct (String.eqb _ "event"); by apply Hkeep.
  - destruct (ws m) as [w|] eqn:Hw; [|by apply Hkeep].
    simpl. split; [done|]. right. exists w. auto.
Qed.

Lemma runs_same_identity (P : Platform) (acts : list action) (m : t) :
  same_identity m (runs P acts m).1.
Proof.
  revert m. induction acts as [|a acts IH]; intros m.
  - apply same_identity_refl.
  - rewrite runs_cons. eapply same_identity_trans; [|apply IH].
    apply run_frame.
Qed.

(** X8: whatever happens to a model after construction, its name, type,
    address, identifier, events address and both schemas stay as they
    are. *)
Theorem identity_and_schemas_never_change
    (P : Platform) (desc : description) (m0 : t) (trace0 : list effect)
    (acts : list action) :
  constructor P desc = Some (m0, trace0) →
  let m := (runs P acts m0).1 in
  name m = d_name desc
  ∧ thing_type m = d_type desc
  ∧ thing_href m = thing_href m0
  ∧ id m = id m0
  ∧ eventsHref m = eventsHref m0
  ∧ propertyDescriptions m = default [] (d_properties desc)
  ∧ eventDescriptions m = default [] (d_events desc).
Proof.
  intros Hc m. subst m.
  destruct (runs_same_identity P acts m0) as (->&->&->&->&->&->&->).
  pose proof (constructor_data P desc m0 trace0 Hc) as (_&_&->&->).
  unfold constructor, initWebsocket in Hc.
  apply bind_Some in Hc as (thing & _ & Hc).
  apply bind_Some in Hc as (collection & _ & Hc).
  simpl in Hc. destruct thing; injection Hc as <- _; done.
Qed.

Lemma identity_of_the_lamp_never_changes :
  constructor Sample.browser Sample.lamp
    = Some (Sample.lamp_model, Sample.lamp_trace)
  ∧ id (runs Sample.browser
          [StreamMessage {| messageType := "propertyStatus";
                            data := [("id", VStr "other")] |};
           Cleanup]
          Sample.lamp_model).1 = Some "lamp".
Proof.
  split; [vm_compute; reflexivity|].
  destruct (identity_and_schemas_never_change
              Sample.browser Sample.lamp Sample.lamp_model Sample.lamp_trace
              [StreamMessage {| messageType := "propertyStatus";
                                data := [("id", VStr "other")] |};
               Cleanup] eq_refl) as (_&_&_&Hid&_).
  exact Hid.
Defined.

(** ** The listeners of the stream *)

Lemma run_deaf (P : Platform) (a : action) (m : t) :
  deaf m → deaf (run P a m).1.
Proof.
  unfold deaf.
  destruct (run_frame P a m) as [_ [->|(w & Hw & [->|[->| ->]])]];
    try done; rewrite Hw; done.
Qed.

Lemma runs_deaf (P : Platform) (acts : list action) (m : t) :
  deaf m → deaf (runs P acts m).1.
Proof.
  revert m. induction acts as [|a acts IH]; intros m Hm; [done|].
  rewrite runs_cons. by apply IH, run_deaf.
Qed.

(** X9: the stream is not reopened.  Once it has closed or failed, no
    message that arrives later changes the model or reaches a subscriber,
    whatever was done in between. *)
Theorem messages_after_close_are_ignored
    (P : Platform) (m : t) (acts : list action) (msg : message) :
  let later := (runs P acts (run P StreamCloseOrError m).1).1 in
  run P (StreamMessage msg) later = (later, []).
Proof.
  intros later.
  assert (deaf later) as Hdeaf.
  { apply runs_deaf. unfold deaf. simpl.
    destruct (ws m) as [w|] eqn:Hw; simpl; [done|by rewrite Hw]. }
  unfold deaf in Hdeaf. simpl.
  destruct (ws later) as [w|]; [|done]. by rewrite Hdeaf.
Qed.

(** X10: teardown does not detach the [message] listener.  After
    [cleanup()] on a model whose stream is listening, a propertyStatus
    message is still folded into the cache exactly as before teardown,
    but no subscriber is called. *)
Theorem cleanup_does_not_stop_reconciliation
    (P : Platform) (m : t) (w : WebSocket) (data : jsobj) :
  ws m = Some w → listening w = true →
  let msg := {| messageType := "propertyStatus"; data := data |} in
  let after := run P (StreamMessage msg) (run P Cleanup m).1 in
  properties after.1 = properties (onPropertyStatus data m).1
  ∧ after.2 = [].
Proof.
  intros Hw Hlisten msg after. subst after msg.
  simpl. unfold cleanup. rewrite Hw. simpl. by rewrite Hlisten.
Qed.

Lemma cleanup_then_status_on_the_lamp :
  properties
    (run Sample.browser
       (StreamMessage {| messageType := "propertyStatus";
                         data := Sample.reading |})
       (run Sample.browser Cleanup Sample.watched_lamp).1).1
    = {[ "level" := VStr "42" ]}.
Proof.
  destruct (cleanup_does_not_stop_reconciliation
              Sample.browser Sample.watched_lamp
              {| ws_url := "wss://gateway.local/things/lamp?jwt=secret";
                 open_armed := true; listening := true; closed := false |}
              Sample.reading eq_refl eq_refl) as [Hprops _].
  rewrite Hprops. vm_compute. reflexivity.
Defined.

(** ** The subscription request *)

(** What may still be sent on the stream: one request, as long as the
    [open] listener is armed and some event is declared. *)
Lemma sends_handleEvent (e : event) (payload : gmap string value) (m : t) :
  sends (handleEvent e payload m) = 0.
Proof. by apply count_fmap_none. Qed.

Lemma sends_ws_onopen (P : Platform) (m : t) :
  sends (ws_onopen P m) =
    if bool_decide (eventDescriptions m = []) then 0 else 1.
Proof.
  unfold ws_onopen. destruct (eventDescriptions m) as [|[k v] o]; done.
Qed.

Lemma run_sends (P : Platform) (a : action) (m : t) :
  sends (run P a m).2 =
    match a with
    | StreamOpen =>
        if armed m && negb (bool_decide (eventDescriptions m = []))
        then 1 else 0
    | _ => 0
    end
  ∧ armed (run P a m).1 =
      match a with
      | StreamOpen => false
      | _ => armed m
      end.
Proof.
  unfold armed.
  destruct a as [e h|name v|name o| |os| |o| |o|updates|o| | |msg|]; simpl.
  - by destruct e.
  - unfold setProperty. by destruct (lookup_own _ _).
  - destruct (hasOwnProperty _ _); [|done].
    destruct o as [r|error]; simpl; [|done].
    destruct (ok r); [|done].
    destruct (json r); simpl; [|done]. split; [|done].
    apply sends_handleEvent.
  - split; [|done]. by apply count_fmap_none.
  - unfold updateProperties_settled. destruct (all os); simpl; [done|].
    split; [|done]. apply sends_handleEvent.
  - unfold updateEvents. by destruct (eventsHref m).
  - destruct (eventsHref m); [|done].
    unfold updateEvents_settled. by destruct (parsed o).
  - done.
  - destruct o as [r|error]; simpl; [|done].
    destruct (ok r); [|done].
    unfold cleanup. destruct (ws m) as [w|] eqn:Hw; simpl; by rewrite ?Hw.
  - done.
  - destruct o as [r|error]; simpl; [|done]. by destruct (ok r).
  - unfold cleanup. destruct (ws m) as [w|] eqn:Hw; simpl; by rewrite ?Hw.
  - destruct (ws m) as [w|] eqn:Hw; simpl; [|by rewrite Hw].
    destruct (open_armed w) eqn:Harmed; simpl; [|by rewrite Hw, Harmed].
    split; [|done]. rewrite sends_ws_onopen. by case_bool_decide.
  - destruct (ws m) as [w|] eqn:Hw; simpl; [|by rewrite Hw].
    destruct (listening w); simpl; [|by rewrite Hw].
    unfold ws_onmessage.
    destruct (String.eqb _ "propertyStatus"); simpl;
      [rewrite Hw; split; [apply sends_handleEvent | done]|].
    destruct (String.eqb _ "event"); simpl; rewrite Hw;
      [split; [apply sends_handleEvent | done] | done].
  - destruct (ws m) as [w|] eqn:Hw; simpl; by rewrite ?Hw.
Qed.

Lemma runs_sends (P : Platform) (acts : list action) (m : t) :
  sends (runs P acts m).2 ≤
    if armed m && negb (bool_decide (eventDescriptions m = []))
    then 1 else 0.
Proof.
  revert m. induction acts as [|a acts IH]; intros m.
  - simpl. unfold sends, count. simpl. lia.
  - rewrite runs_trace_cons. unfold sends in *. rewrite count_app.
    destruct (run_sends P a m) as [Hnow Harmed]. unfold sends in Hnow.
    specialize (IH (run P a m).1). rewrite Harmed in IH.
    destruct (run_frame P a m) as [(_&_&_&_&_&_&Hschema) _].
    rewrite Hschema in IH. rewrite Hnow.
    destruct a; simpl in *; lia.
Qed.

(** X11: over its whole life a model sends at most one subscription
    request on its stream, and none at all when its description declares
    no event. *)
Theorem at_most_one_subscription_request
    (P : Platform) (desc : description) (m0 : t) (trace0 : list effect)
    (acts : list action) :
  constructor P desc = Some (m0, trace0) →
  sends (trace0 ++ (runs P acts m0).2) ≤
    if bool_decide (default [] (d_events desc) = []) then 0 else 1.
Proof.
  intros Hc.
  pose proof (constructor_data P desc m0 trace0 Hc) as (_&_&_&Hschema).
  assert (sends trace0 = 0) as Hfirst.
  { unfold constructor in Hc.
    apply bind_Some in Hc as (thing & _ & Hc).
    apply bind_Some in Hc as (collection & _ & Hc).
    assert (∀ m, sends (updateEvents P m ++ updateProperties P m) = 0)
      as Hreads.
    { intros m. unfold sends. rewrite count_app.
      unfold updateProperties. rewrite count_fmap_none by done.
      unfold updateEvents. by destruct (eventsHref m). }
    destruct thing as [u|]; simpl in Hc; injection Hc as <- <-.
    - unfold sends in *. by rewrite count_cons, Hreads.
    - apply Hreads. }
  unfold sends in *. rewrite count_app, Hfirst.
  pose proof (runs_sends P acts m0) as Hlater. unfold sends in Hlater.
  rewrite Hschema in Hlater.
  case_bool_decide; simpl in *; [|destruct (armed m0); simpl in *; lia].
  rewrite andb_false_r in Hlater. lia.
Qed.

Lemma at_most_one_subscription_request_of_the_lamp :
  constructor Sample.browser Sample.lamp
    = Some (Sample.lamp_model, Sample.lamp_trace)
  ∧ sends (Sample.lamp_trace ++
           (runs Sample.browser [StreamOpen; StreamOpen; StreamOpen]
                 Sample.lamp_model).2) ≤ 1.
Proof.
  split; [vm_compute; reflexivity|].
  exact (at_most_one_subscription_request
           Sample.browser Sample.lamp Sample.lamp_model Sample.lamp_trace
           [StreamOpen; StreamOpen; StreamOpen] eq_refl).
Defined.

Lemma set_fresh {A} (k : string) (v : A) (o : obj A) :
  k ∉ own_keys o → set k v o = o ++ [(k, v)].
Proof.
  unfold own_keys. induction o as [|[k' v'] o IH]; simpl; intros Hk.
  - done.
  - destruct (String.eqb_spec k' k) as [->|Hne]; [set_solver|].
    rewrite IH; [done | set_solver].
Qed.

Lemma set_each_fresh {A} (v : A) (keys : list string) (o : obj A) :
  NoDup keys → (∀ k, k ∈ keys → k ∉ own_keys o) →
  foldl (λ d name, set name v d) o keys = o ++ ((λ k, (k, v)) <$> keys).
Proof.
  revert o. induction keys as [|k keys IH]; intros o Hnd Hfresh; simpl.
  - by rewrite app_nil_r.
  - apply NoDup_cons in Hnd as [Hk Hnd].
    rewrite set_fresh by (apply Hfresh; set_solver).
    rewrite IH; [by rewrite <- app_assoc | done |].
    intros k' Hk'. unfold own_keys. rewrite fmap_app. simpl.
    specialize (Hfresh k'). unfold own_keys in Hfresh. set_solver.
Qed.

(** X12: when the stream opens, a model that declares events sends one
    request of type addEventSubscription whose data names every declared
    event once, in schema order, each with an empty object; when the
    stream reports [open] again, nothing is sent. *)
Theorem open_subscribes_to_every_event_once
    (P : Platform) (m : t) (w : WebSocket) :
  ws m = Some w → open_armed w = true →
  NoDup (own_keys (eventDescriptions m)) → eventDescriptions m ≠ [] →
  (run P StreamOpen m).2 =
    [WebSocketSend
       (JSON_stringify P
          (VObj [("messageType", VStr "addEventSubscription");
                 ("data",
                  VObj ((λ k, (k, VObj [])) <$>
                          own_keys (eventDescriptions m)))]))]
  ∧ (run P StreamOpen (run P StreamOpen m).1).2 = [].
Proof.
  intros Hw Harmed Hnd Hsome. simpl. rewrite Hw, Harmed. simpl.
  split; [|done]. unfold ws_onopen.
  rewrite bool_decide_eq_false_2
    by (by destruct (eventDescriptions m)).
  rewrite set_each_fresh; [done | done | set_solver].
Qed.

Lemma open_subscribes_the_lamp :
  (run Sample.browser StreamOpen Sample.lamp_model).2 =
    [WebSocketSend
       (JSON_stringify Sample.browser
          (VObj [("messageType", VStr "addEventSubscription");
                 ("data", VObj [("overheated", VObj [])])]))].
Proof.
  refine (proj1 (open_subscribes_to_every_event_once
                   Sample.browser Sample.lamp_model
                   {| ws_url := "wss://gateway.local/things/lamp?jwt=secret";
                      open_armed := true; listening := true;
                      closed := false |}
                   eq_refl eq_refl _ _)).
  - apply (bool_decide_unpack _). vm_compute. exact I.
  - discriminate.
Defined.

(** ** Removing a thing that has no stream *)

(** X13: a model built from a description without a resource address can
    never be removed with success.  Whatever was done before, when its
    delete is answered with success, teardown throws on the absent
    stream: the promise is rejected and the model, its subscribers
    included, is as before. *)
Theorem removeThing_without_stream_never_resolves
    (P : Platform) (desc : description) (m0 : t) (trace0 : list effect)
    (acts : list action) (r : response unit) :
  constructor P desc = Some (m0, trace0) → ¬ has_address desc →
  ok r = true →
  let m := (runs P acts m0).1 in
  (removeThing_settled (Response r) m).1.1 = m
  ∧ (removeThing_settled (Response r) m).2
      = Rejected "Error occurred while removing thing".
Proof.
  intros Hc Hno Hok m.
  destruct (constructor_stream P desc m0 trace0 Hc)
    as [_ [(Hyes&_)|(_&_&Hws0)]]; [done|].
  destruct (runs_stream P acts m0) as (_&_&Hws).
  rewrite Hws0 in Hws. fold m in Hws.
  unfold removeThing_settled, cleanup. rewrite Hok.
  by destruct (ws m).
Qed.

Lemma removeThing_of_the_orphan_never_resolves :
  constructor Sample.browser Sample.orphan
    = Some (Sample.orphan_model,
            [Fetch (get_request Sample.browser
                      (Some "https://gateway.local/things/orphan/events"))])
  ∧ ¬ has_address Sample.orphan
  ∧ (removeThing_settled
       (Response {| ok := true; status := 204; statusText := "No Content";
                    json := None |})
       (runs Sample.browser [Subscribe PROPERTY_STATUS 7]
             Sample.orphan_model).1).2
      = Rejected "Error occurred while removing thing".
Proof.
  assert (¬ has_address Sample.orphan) as Hno.
  { intros (h & Hh & _). discriminate Hh. }
  split; [vm_compute; reflexivity|]. split; [exact Hno|].
  exact (proj2 (removeThing_without_stream_never_resolves
                  Sample.browser Sample.orphan Sample.orphan_model _
                  [Subscribe PROPERTY_STATUS 7]
                  {| ok := true; status := 204; statusText := "No Content";
                     json := None |}
                  eq_refl Hno eq_refl)).
Defined.

(** ** The life of the log *)

Lemma run_events_grow (P : Platform) (a : action) (m : t) :
  ¬ resyncs a → events m `prefix_of` events (run P a m).1.
Proof.
  intros Hno.
  destruct (run_data_change P a m) as [Hsame|data Hr|data Hr|o evs -> Ho Hr].
  - destruct Hsame as (_&_&_&->). done.
  - by rewrite Hr.
  - rewrite Hr. simpl. rewrite onEvent_loop_log. by eexists.
  - exfalso. apply Hno. by exists evs.
Qed.

(** X14: as long as no [updateEvents] read delivers a collection, the log
    only grows: what [events] held before any sequence of actions is
    still there afterwards, in the same order, at its beginning. *)
Theorem events_only_grow_without_resync
    (P : Platform) (acts : list action) (m : t) :
  Forall (λ a, ¬ resyncs a) acts →
  events m `prefix_of` events (runs P acts m).1.
Proof.
  revert m. induction acts as [|a acts IH]; intros m Hacts; [done|].
  apply Forall_cons in Hacts as [Ha Hacts].
  rewrite runs_cons. etrans; [by apply run_events_grow | by apply IH].
Qed.

Lemma events_of_the_lamp_grow :
  let acts :=
    [StreamMessage {| messageType := "event"; data := Sample.occurrence |};
     UpdateEventsSettled (NetworkError "offline");
     StreamMessage {| messageType := "event"; data := Sample.occurrence |}]
  in
  Forall (λ a, ¬ resyncs a) acts
  ∧ events Sample.lamp_model
      `prefix_of` events (runs Sample.browser acts Sample.lamp_model).1.
Proof.
  intros acts.
  assert (Forall (λ a, ¬ resyncs a) acts) as Hacts.
  { constructor; [intros []|].
    constructor; [intros [evs Hevs]; discriminate Hevs|].
    constructor; [intros [] | constructor]. }
  split; [exact Hacts|].
  exact (events_only_grow_without_resync
           Sample.browser acts Sample.lamp_model Hacts).
Defined.

(** X15: a settled [updateEvents] read of a model that has an events
    address replaces the log by the collection it delivers, whatever the
    log held from earlier actions and whether or not the response is
    ok; a read that fails, or any such action on a model without events
    address, leaves the log as it was. *)
Theorem updateEvents_replaces_the_log
    (P : Platform) (acts : list action) (o : outcome (list jsobj))
    (m : t) :
  let before := (runs P acts m).1 in
  events (run P (UpdateEventsSettled o) before).1 =
    match eventsHref m, parsed o with
    | Some _, inr evs => evs
    | _, _ => events before
    end.
Proof.
  intros before.
  destruct (runs_same_identity P acts m)
    as (_&_&_&_&Haddress&_). fold before in Haddress.
  simpl. rewrite Haddress. destruct (eventsHref m); [|done].
  unfold updateEvents_settled. by destruct (parsed o).
Qed.

(** ** Construction *)

Lemma resolve_None (P : Platform) (address : option string) :
  resolve P address = None ↔
  ∃ h, address = Some h ∧ new_URL P h (ORIGIN P) = None.
Proof.
  unfold resolve. destruct address as [h|].
  - destruct (new_URL P h (ORIGIN P)) eqn:Hu; simpl.
    + split; [done|]. intros (h' & [= <-] & Hnone). congruence.
    + split; [|done]. intros _. by exists h.
  - split; [done|]. by intros (h & ? & _).
Qed.

(** The model and the effects of a construction that succeeds. *)
Lemma constructor_inv (P : Platform) (desc : description) (m : t)
    (trace : list effect) :
  constructor P desc = Some (m, trace) →
  ∃ address collection,
    resolve P (if d_href desc is Some "" then None else d_href desc)
      = Some address
    ∧ resolve P (link_href <$> events_link desc) = Some collection
    ∧ m = {| name := d_name desc;
             thing_type := d_type desc;
             properties := ∅;
             events := [];
             thing_href := address;
             id := (λ u, last_segment (pathname u) "") <$> address;
             eventsHref := collection;
             propertyDescriptions := default [] (d_properties desc);
             eventDescriptions := default [] (d_events desc);
             ws := (λ u, {| ws_url := replace_http (url_href u)
                                      +:+ "?jwt=" +:+ jwt P;
                            open_armed := true; listening := true;
                            closed := false |}) <$> address;
             handlers := [] |}
    ∧ trace =
        (if ws m is Some w then [WebSocketNew (ws_url w)] else [])
        ++ updateEvents P m ++ updateProperties P m.
Proof.
  unfold constructor, initWebsocket. intros Hc.
  apply bind_Some in Hc as (address & Haddress & Hc).
  apply bind_Some in Hc as (collection & Hcollection & Hc).
  exists address, collection. split; [done|]. split; [done|].
  simpl in Hc. destruct address as [u|]; injection Hc as <- <-; done.
Qed.

(** X16: construction throws when an address does not parse: the
    resource address of the description, if it has one, or the address
    of its first link with relation [events], if there is one.  No model
    is built, and nothing is opened or requested. *)
Theorem constructor_fails_on_a_bad_address
    (P : Platform) (desc : description) :
  (∃ h, d_href desc = Some h ∧ h ≠ ""
        ∧ new_URL P h (ORIGIN P) = None)
  ∨ (∃ l, events_link desc = Some l
          ∧ new_URL P (link_href l) (ORIGIN P) = None) →
  constructor P desc = None.
Proof.
  unfold constructor. rewrite bind_None.
  intros [(h & Hh & Hne & Hnone)|(l & Hl & Hnone)].
  - left. apply resolve_None. exists h. rewrite Hh.
    by destruct h.
  - destruct (resolve P (if d_href desc is Some "" then None
                         else d_href desc)) as [address|] eqn:Ha;
      [right | by left].
    exists address. split; [done|]. apply bind_None. left.
    apply resolve_None. exists (link_href l).
    unfold events_link in Hl. by rewrite Hl.
Qed.

Lemma constructor_throws_on_a_bad_address :
  (∃ h, d_href Sample.misaddressed = Some h ∧ h ≠ ""
        ∧ new_URL Sample.strict h (ORIGIN Sample.strict) = None)
  ∧ constructor Sample.strict Sample.misaddressed = None.
Proof.
  assert (∃ h, d_href Sample.misaddressed = Some h ∧ h ≠ ""
               ∧ new_URL Sample.strict h (ORIGIN Sample.strict) = None)
    as Hbad.
  { exists "http://[". split; [reflexivity|].
    split; [discriminate | reflexivity]. }
  split; [exact Hbad|].
  apply constructor_fails_on_a_bad_address. left. exact Hbad.
Defined.

(** X20: a construction that succeeds performs, in this order, the
    opening of the stream if the model has an address, one read of the
    events collection if it has an events address, and one read per
    declared property, in schema order, at the address of the property;
    it performs nothing else. *)
Theorem construction_opens_then_reads
    (P : Platform) (desc : description) (m : t) (trace : list effect) :
  constructor P desc = Some (m, trace) →
  trace =
    (if ws m is Some w then [WebSocketNew (ws_url w)] else [])
    ++ (if eventsHref m is Some u
        then [Fetch (get_request P (Some (url_href u)))] else [])
    ++ ((λ d, Fetch (get_request P (href d.2))) <$>
          default [] (d_properties desc))
  ∧ (is_Some (ws m) ↔ is_Some (thing_href m)).
Proof.
  intros (address & collection & _ & _ & -> & ->)%constructor_inv.
  simpl. split.
  - unfold updateEvents, updateProperties. simpl.
    by rewrite <- list_fmap_compose.
  - by rewrite fmap_is_Some.
Qed.

Lemma construction_of_the_orphan_reads_events_only :
  constructor Sample.browser Sample.orphan
    = Some (Sample.orphan_model, Sample.orphan_trace)
  ∧ Sample.orphan_trace =
      [Fetch (get_request Sample.browser
                (Some "https://gateway.local/things/orphan/events"))].
Proof.
  split; [vm_compute; reflexivity|].
  exact (proj1 (construction_opens_then_reads
                  Sample.browser Sample.orphan Sample.orphan_model
                  Sample.orphan_trace eq_refl)).
Defined.

Lemma append_cons (c : ascii) (s1 s2 : string) :
  String c s1 +:+ s2 = String c (s1 +:+ s2).
Proof. reflexivity. Qed.

Lemma append_assoc (s1 s2 s3 : string) :
  (s1 +:+ s2) +:+ s3 = s1 +:+ (s2 +:+ s3).
Proof.
  induction s1 as [|c s1 IH]; [done|].
  by rewrite !append_cons, IH.
Qed.

Lemma last_segment_slashless (s current : string) :
  has_slash s = false → last_segment s current = current +:+ s.
Proof.
  revert current. induction s as [|c s IH]; intros current; simpl.
  - by rewrite append_empty_r.
  - intros [Hc Hs]%orb_false_elim. rewrite Hc, IH by done.
    by rewrite append_assoc.
Qed.

Lemma last_segment_after_slash (dir seg current : string) :
  last_segment (dir +:+ String "/" seg) current = last_segment seg "".
Proof.
  revert current. induction dir as [|c dir IH]; intros current.
  - done.
  - rewrite append_cons. simpl. destruct (Ascii.eqb c "/"); apply IH.
Qed.

(** X17: the identifier of a model is the part of the path of its
    address after the last [/]; a model without address has none. *)
Theorem id_is_the_last_path_segment
    (P : Platform) (desc : description) (m : t) (trace : list effect) :
  constructor P desc = Some (m, trace) →
  match thing_href m with
  | Some u =>
      ∀ dir seg,
        pathname u = dir +:+ "/" +:+ seg → has_slash seg = false →
        id m = Some seg
  | None => id m = None
  end.
Proof.
  intros (address & collection & _ & _ & -> & _)%constructor_inv. simpl.
  destruct address as [u|]; [|done]. intros dir seg Hpath Hseg. simpl.
  rewrite Hpath. change ("/" +:+ seg) with (String "/" seg).
  rewrite last_segment_after_slash.
  by rewrite last_segment_slashless.
Qed.

Lemma id_of_the_lamp :
  constructor Sample.browser Sample.lamp
    = Some (Sample.lamp_model, Sample.lamp_trace)
  ∧ id Sample.lamp_model = Some "lamp".
Proof.
  split; [vm_compute; reflexivity|].
  exact (id_is_the_last_path_segment
           Sample.browser Sample.lamp Sample.lamp_model Sample.lamp_trace
           eq_refl "/things" "lamp" eq_refl eq_refl).
Defined.

Lemma substring_whole (s : string) :
  String.substring 0 (String.length s) s = s.
Proof. induction s as [|c s IH]; simpl; [done | by rewrite IH]. Qed.

Lemma replace_http_scheme (rest : string) :
  replace_http ("http" +:+ rest) = "ws" +:+ rest.
Proof.
  unfold replace_http. rewrite prefix_append.
  change ("http" +:+ rest)
    with (String "h" (String "t" (String "t" (String "p" rest)))).
  simpl. rewrite Nat.sub_0_r. rewrite substring_whole. reflexivity.
Qed.

(** X18: the stream of a model whose address begins with [http] is
    opened at that address with the leading [http] replaced by [ws] (so
    [https] becomes [wss]) and the credential appended as the query
    [?jwt=]. *)
Theorem stream_address_swaps_the_scheme
    (P : Platform) (desc : description) (m : t) (trace : list effect)
    (u : URL) (rest : string) :
  constructor P desc = Some (m, trace) →
  thing_href m = Some u → url_href u = "http" +:+ rest →
  trace !! 0 = Some (WebSocketNew ("ws" +:+ rest +:+ "?jwt=" +:+ jwt P))
  ∧ ws_url <$> ws m = Some ("ws" +:+ rest +:+ "?jwt=" +:+ jwt P).
Proof.
  intros (address & collection & _ & _ & -> & ->)%constructor_inv.
  simpl. intros -> Hhref. simpl.
  by rewrite Hhref, replace_http_scheme, append_assoc.
Qed.

Lemma stream_address_of_the_lamp :
  constructor Sample.browser Sample.lamp
    = Some (Sample.lamp_model, Sample.lamp_trace)
  ∧ ws_url <$> ws Sample.lamp_model
      = Some "wss://gateway.local/things/lamp?jwt=secret".
Proof.
  split; [vm_compute; reflexivity|].
  exact (proj2 (stream_address_swaps_the_scheme
                  Sample.browser Sample.lamp Sample.lamp_model
                  Sample.lamp_trace
                  {| url_href := "https://gateway.local/things/lamp";
                     pathname := "/things/lamp" |}
                  "s://gateway.local/things/lamp"
                  eq_refl eq_refl eq_refl)).
Defined.

Lemma events_link_first (desc : description) (pre post : list link)
    (l : link) :
  d_links desc = pre ++ l :: post →
  Forall (λ l', rel l' ≠ "events") pre → rel l = "events" →
  events_link desc = Some l.
Proof.
  unfold events_link. intros -> Hpre Hl.
  induction Hpre as [|l' pre Hl' _ IH]; simpl.
  - by rewrite filter_cons_True.
  - by rewrite filter_cons_False.
Qed.

(** X19: the events address of a model is the address of the first link
    of the description with relation [events]; links after it are not
    looked at, and the initial read of the events collection goes to
    that address. *)
Theorem events_address_is_the_first_events_link
    (P : Platform) (desc : description) (m : t) (trace : list effect)
    (pre post : list link) (l : link) :
  constructor P desc = Some (m, trace) →
  d_links desc = pre ++ l :: post →
  Forall (λ l', rel l' ≠ "events") pre → rel l = "events" →
  ∃ u, new_URL P (link_href l) (ORIGIN P) = Some u
       ∧ eventsHref m = Some u
       ∧ Fetch (get_request P (Some (url_href u))) ∈ trace.
Proof.
  intros (address & collection & _ & Hc & -> & ->)%constructor_inv
         Hlinks Hpre Hl.
  rewrite (events_link_first desc pre post l) in Hc by done.
  unfold resolve in Hc. simpl in Hc.
  destruct (new_URL P (link_href l) (ORIGIN P)) as [u|]; [|done].
  injection Hc as <-. exists u. split; [done|]. split; [done|].
  unfold updateEvents. simpl. set_solver.
Qed.

Lemma events_address_of_the_lamp :
  constructor Sample.browser Sample.lamp
    = Some (Sample.lamp_model, Sample.lamp_trace)
  ∧ ∃ u, eventsHref Sample.lamp_model = Some u
         ∧ url_href u = "https://gateway.local/things/lamp/events".
Proof.
  split; [vm_compute; reflexivity|].
  destruct (events_address_is_the_first_events_link
              Sample.browser Sample.lamp Sample.lamp_model Sample.lamp_trace
              [ {| rel := "properties";
                   link_href := "/things/lamp/properties" |} ]
              []
              {| rel := "events"; link_href := "/things/lamp/events" |}
              eq_refl eq_refl) as (u & Hu & Hm & _).
  - constructor; [discriminate | constructor].
  - reflexivity.
  - exists u. split; [exact Hm|]. injection Hu as <-. reflexivity.
Defined.
